(** * The batch SVG-to-PNG rasterizer ([tools/svg_to_png_playwright.py])

    A shallow embedding of [SvgToPngConverter] and [main], and the
    properties of the rasterizer stated over it.

    Conventions of the model:
    - a Python [str] is a [string]; each [ascii] is one code point below 256;
    - a Python [float] is an IEEE 754 binary64 value ([spec_float] at
      precision 53, maximal exponent 1024);
    - a [pathlib.Path] is a pure POSIX path: an anchor flag and its parts;
    - the file system is a tree without symbolic links;
    - the browser engine is an oracle that answers every call from the
      history of the calls made so far. *)

From Stdlib Require Import ZArith Ascii SpecFloat.
From stdpp Require Import base list sorting strings.

Local Open Scope Z_scope.

(** ** Python values and exceptions *)

Module Py.

(** What a raised exception is to this program: an instance of [Exception]
    with its message [str(e)], or the [SystemExit] that [sys.exit] raises,
    which derives from [BaseException] only. An interrupt of the process
    from outside ([KeyboardInterrupt]) is not part of the model. *)
Inductive exn :=
| Exception (msg : string)
| SystemExit (code : Z).

(** A computation without state: a value or a raised exception. *)
Inductive result (A : Type) :=
| Ok (a : A)
| Raise (e : exn).
Global Arguments Ok {A} a.
Global Arguments Raise {A} e.

Definition float := spec_float.

Global Instance float_eq_dec : EqDecision spec_float.
Proof. solve_decision. Defined.

Definition float_of_Z (n : Z) : float := binary_normalize 53 1024 n 0 false.
Definition fmul (x y : float) : float := SFmul 53 1024 x y.

(** [str.isspace] on the code points below 256. *)
Definition isspace (c : ascii) : bool :=
  let n := N_of_ascii c in
  ((9 <=? n) && (n <=? 13) || (28 <=? n) && (n <=? 32)
   || (n =? 133) || (n =? 160))%N.

(** [s.split()]: the maximal runs of non-space characters, in order.
    [cur] is the run being read, reversed. *)
Fixpoint split_go (cur : string) (s : string) : list string :=
  match s with
  | "" => if decide (cur = "") then [] else [String.rev cur]
  | String c s' =>
      if isspace c
      then (if decide (cur = "") then [] else [String.rev cur]) ++ split_go "" s'
      else split_go (String c cur) s'
  end.
Definition split (s : string) : list string := split_go "" s.

(** *** [float(s)] on a string without surrounding white space *)

Definition digit_val (c : ascii) : option Z :=
  let n := N_of_ascii c in
  if ((48 <=? n) && (n <=? 57))%N then Some (Z.of_N n - 48) else None.

(** The tail of a [digitpart]: digits, each optionally preceded by one
    underscore. Returns the accumulated value, the number of digits read
    and the unread rest. *)
Fixpoint digits_tail (acc cnt : Z) (s : string) : Z * Z * string :=
  match s with
  | String c s' =>
      match digit_val c with
      | Some d => digits_tail (10 * acc + d) (cnt + 1) s'
      | None =>
          if decide (c = "_"%char) then
            match s' with
            | String c' s'' =>
                match digit_val c' with
                | Some d => digits_tail (10 * acc + d) (cnt + 1) s''
                | None => (acc, cnt, s)
                end
            | "" => (acc, cnt, s)
            end
          else (acc, cnt, s)
      end
  | "" => (acc, cnt, s)
  end.

(** [digitpart ::= digit (["_"] digit)*], continuing the value [acc]. *)
Definition digitpart (acc : Z) (s : string) : option (Z * Z * string) :=
  match s with
  | String c s' =>
      match digit_val c with
      | Some d => Some (digits_tail (10 * acc + d) 1 s')
      | None => None
      end
  | "" => None
  end.

Definition sign (s : string) : bool * string :=
  match s with
  | String "-" s' => (true, s')
  | String "+" s' => (false, s')
  | _ => (false, s)
  end.

(** [number ::= [digitpart] "." digitpart | digitpart ["."]]: the digits as
    one integer, the number of digits after the point, the rest. *)
Definition number (s : string) : option (Z * Z * string) :=
  match digitpart 0 s with
  | Some (m, _, String "." s') =>
      match digitpart m s' with
      | Some r => Some r
      | None => Some (m, 0, s')
      end
  | Some (m, _, rest) => Some (m, 0, rest)
  | None =>
      match s with
      | String "." s' => digitpart 0 s'
      | _ => None
      end
  end.

(** [exponent ::= ("e" | "E") [sign] digitpart]; absent means 0. *)
Definition exponent (s : string) : option (Z * string) :=
  match s with
  | String c s' =>
      if decide (c = "e"%char ∨ c = "E"%char) then
        let '(neg, s'') := sign s' in
        match digitpart 0 s'' with
        | Some (e, _, rest) => Some (if neg then - e else e, rest)
        | None => None
        end
      else Some (0, s)
  | "" => Some (0, s)
  end.

(** The binary64 nearest to [m * 10 ^ e], ties to even. *)
Definition decimal_to_float (neg : bool) (m e : Z) : float :=
  match m with
  | Zpos p =>
      if 0 <=? e
      then binary_normalize 53 1024 (cond_Zopp neg (m * 10 ^ e)) 0 neg
      else SFdiv 53 1024 (S754_finite neg p 0)
                         (S754_finite false (Z.to_pos (10 ^ (- e))) 0)
  | _ => S754_zero neg
  end.

Definition lower (c : ascii) : ascii :=
  let n := N_of_ascii c in
  if ((65 <=? n) && (n <=? 90))%N then ascii_of_N (n + 32) else c.

Fixpoint lower_string (s : string) : string :=
  match s with
  | "" => ""
  | String c s' => String (lower c) (lower_string s')
  end.

Definition parse_float (s : string) : option float :=
  let '(neg, body) := sign s in
  let l := lower_string body in
  if decide (l = "inf" ∨ l = "infinity") then Some (S754_infinity neg)
  else if decide (l = "nan") then Some S754_nan
  else
    match number body with
    | Some (m, frac, rest) =>
        match exponent rest with
        | Some (e, "") => Some (decimal_to_float neg m (e - frac))
        | _ => None
        end
    | None => None
    end.

(** [float(s)] raises [ValueError] on a string it cannot read. *)
Definition float_of_string (s : string) : result float :=
  match parse_float s with
  | Some x => Ok x
  | None => Raise (Exception ("could not convert string to float: '" +:+ s +:+ "'"))
  end.

(** [int(x)] truncates toward zero; it raises [OverflowError] on an
    infinity and [ValueError] on a NaN. *)
Definition int_of_float (x : float) : result Z :=
  match x with
  | S754_zero _ => Ok 0
  | S754_finite s m e => Ok (cond_Zopp s (Z.shiftl (Zpos m) e))
  | S754_infinity _ => Raise (Exception "cannot convert float infinity to integer")
  | S754_nan => Raise (Exception "cannot convert float NaN to integer")
  end.

(** [round(x)] with one argument: the nearest integer, ties to even. *)
Definition round_of_float (x : float) : result Z :=
  match x with
  | S754_zero _ => Ok 0
  | S754_finite s m e =>
      let n := Zpos m in
      let r :=
        if 0 <=? e then Z.shiftl n e
        else
          let d := 2 ^ (- e) in
          let q := n / d in
          match (2 * (n mod d)) ?= d with
          | Lt => q
          | Gt => q + 1
          | Eq => if Z.even q then q else q + 1
          end in
      Ok (cond_Zopp s r)
  | S754_infinity _ => Raise (Exception "cannot convert float infinity to integer")
  | S754_nan => Raise (Exception "cannot convert float NaN to integer")
  end.

End Py.

Import Py.

(** ** [pathlib]: pure POSIX paths *)

Module Pathlib.

(** A [PurePosixPath]: whether it starts at the root, and its components.
    Empty and ["."] components are dropped when a path is built; [".."]
    components are kept. *)
Record Path := mkPath { anchor : bool; parts : list string }.

Global Instance Path_eq_dec : EqDecision Path.
Proof. solve_decision. Defined.

(** [s.split("/")] *)
Fixpoint split_sep_go (cur : string) (s : string) : list string :=
  match s with
  | "" => [String.rev cur]
  | String c s' =>
      if decide (c = "/"%char) then String.rev cur :: split_sep_go "" s'
      else split_sep_go (String c cur) s'
  end.

(** [Path(s)] *)
Definition of_string (s : string) : Path :=
  {| anchor := match s with String "/" _ => true | _ => false end;
     parts := filter (λ p, p ≠ "" ∧ p ≠ ".") (split_sep_go "" s) |}.

(** [p.name] *)
Definition name (p : Path) : string := List.last (parts p) "".

(** [p.parent]: purely lexical; a path without components is its own
    parent. *)
Definition parent (p : Path) : Path :=
  {| anchor := anchor p; parts := removelast (parts p) |}.

(** [p / q] *)
Definition joinpath (p q : Path) : Path :=
  if anchor q then q else {| anchor := anchor p; parts := parts p ++ parts q |}.

(** [s.rfind(c)]: the index of the last occurrence. *)
Fixpoint rfind (c : ascii) (s : string) : option nat :=
  match s with
  | "" => None
  | String a s' =>
      match rfind c s' with
      | Some i => Some (S i)
      | None => if decide (a = c) then Some 0%nat else None
      end
  end.

(** The suffix of a file name: from its last dot, unless that dot is the
    first or the last character. *)
Definition name_suffix (n : string) : string :=
  match rfind "." n with
  | Some i =>
      if decide (0 < i < String.length n - 1)%nat
      then String.substring i (String.length n - i) n
      else ""
  | None => ""
  end.

(** [p.suffix] *)
Definition suffix (p : Path) : string := name_suffix (name p).

(** The name that [with_suffix] builds: the old suffix cut off, the new one
    appended. *)
Definition name_with_suffix (n sfx : string) : string :=
  String.substring 0 (String.length n - String.length (name_suffix n)) n +:+ sfx.

(** [p.with_suffix(sfx)], for a well-formed [sfx] such as [".png"]; raises
    [ValueError] on a path with an empty name. *)
Definition with_suffix (p : Path) (sfx : string) : result Path :=
  if decide (name p = "") then Raise (Exception "path has an empty name")
  else Ok {| anchor := anchor p;
             parts := removelast (parts p) ++ [name_with_suffix (name p) sfx] |}.

(** [p.relative_to(other)]; raises [ValueError] when [other] is not a
    lexical prefix of [p]. *)
Definition relative_to (p other : Path) : result Path :=
  if decide (anchor p = anchor other ∧ parts other `prefix_of` parts p)
  then Ok {| anchor := false; parts := drop (length (parts other)) (parts p) |}
  else Raise (Exception "path is not in the subpath of the other path").

(** [str(p)] *)
Definition to_string (p : Path) : string :=
  match anchor p, parts p with
  | false, [] => "."
  | a, ps => (if a then "/" else "") +:+ String.concat "/" ps
  end.

(** The order [sorted] uses on paths: Python compares the lists of
    components, the root first, each component as a string. *)
Fixpoint list_le (l1 l2 : list string) : Prop :=
  match l1, l2 with
  | [], _ => True
  | _ :: _, [] => False
  | x :: l1', y :: l2' => if decide (x = y) then list_le l1' l2' else String.le x y
  end.

Definition cparts (p : Path) : list string :=
  (if anchor p then ["/"] else []) ++ parts p.

Definition path_le (p q : Path) : Prop := list_le (cparts p) (cparts q).

Global Instance list_le_dec : RelDecision list_le.
Proof.
  intros l1. induction l1 as [|x l1 IH]; intros [|y l2]; simpl; try apply _.
  destruct (decide (x = y)); apply _.
Defined.

Global Instance path_le_dec : RelDecision path_le.
Proof. intros p q. unfold path_le. apply _. Defined.

(** [sorted(ps)] on a list of paths. *)
Definition sorted (ps : list Path) : list Path := merge_sort path_le ps.

End Pathlib.

Import Pathlib.

(** ** The file system *)

Module Fs.

(** What reading a file gives: its text, or the message of the [OSError]
    or [UnicodeDecodeError] that reading it raises. *)
Inductive data :=
| Text (s : string)
| Unreadable (msg : string).

(** A regular file, a directory with its entries in listing order, or
    another kind of file (device, FIFO, socket), which exists but is
    neither a regular file nor a directory. *)
#[local] Unset Elimination Schemes.
Inductive node :=
| File (content : data)
| Special (content : data)
| Dir (entries : list (string * node)).
#[local] Set Elimination Schemes.

(** Induction on a tree, with the hypothesis on every entry of a directory. *)
Fixpoint node_ind (P : node → Prop)
    (HF : ∀ c, P (File c)) (HS : ∀ c, P (Special c))
    (HD : ∀ es, Forall (λ e, P e.2) es → P (Dir es)) (n : node) : P n :=
  match n with
  | File c => HF c
  | Special c => HS c
  | Dir es =>
      HD es ((fix go (es : list (string * node)) : Forall (λ e, P e.2) es :=
                match es with
                | [] => List.Forall_nil _
                | (x, c) :: es' =>
                    List.Forall_cons _ (x, c) es' (node_ind P HF HS HD c) (go es')
                end) es)
  end.

Inductive errno := ENOENT | ENOTDIR | EEXIST | EISDIR.

Global Instance errno_eq_dec : EqDecision errno.
Proof. solve_decision. Defined.

Fixpoint lookup_entry (es : list (string * node)) (x : string) : option node :=
  match es with
  | [] => None
  | (y, c) :: es' => if decide (y = x) then Some c else lookup_entry es' x
  end.

(** The node at a location, a list of entry names from the root. *)
Fixpoint walk (n : node) (loc : list string) : option node :=
  match loc with
  | [] => Some n
  | x :: loc' =>
      match n with
      | Dir es => match lookup_entry es x with Some c => walk c loc' | None => None end
      | _ => None
      end
  end.

(** Path resolution: from the location [loc], follow the components [ps];
    every component is looked up in a directory, and [".."] steps to the
    parent (the root is its own parent). The last component need not
    exist. *)
Fixpoint canon (root : node) (loc ps : list string) : errno + list string :=
  match ps with
  | [] => inr loc
  | p :: ps' =>
      match walk root loc with
      | Some (Dir _) =>
          canon root (if decide (p = "..") then removelast loc else loc ++ [p]) ps'
      | Some _ => inl ENOTDIR
      | None => inl ENOENT
      end
  end.

(** Change the entry [x] of a directory listing, or append it. *)
Fixpoint alter_entry (f : option node → node) (x : string)
    (es : list (string * node)) : list (string * node) :=
  match es with
  | [] => [(x, f None)]
  | (y, c) :: es' =>
      if decide (y = x) then (y, f (Some c)) :: es' else (y, c) :: alter_entry f x es'
  end.

(** The tree with [new] put at the location [loc]. *)
Fixpoint put (n : node) (loc : list string) (new : node) : node :=
  match loc with
  | [] => new
  | x :: loc' =>
      match n with
      | Dir es => Dir (alter_entry (λ oc, put (default (Dir []) oc) loc' new) x es)
      | _ => n
      end
  end.

(** [fnmatch(name, "*.svg")] on a POSIX system: the name ends in
    [".svg"], case-sensitively. *)
Definition fnmatch_svg (x : string) : bool :=
  bool_decide (4 ≤ String.length x
               ∧ String.substring (String.length x - 4) 4 x = ".svg")%nat.

(** The entries of a directory that match ["*.svg"], as relative parts. *)
Definition glob_node (n : node) : list (list string) :=
  match n with
  | Dir es => (λ e, [e.1]) <$> filter (λ e, fnmatch_svg e.1 = true) es
  | _ => []
  end.

(** The same at every depth below the directory: [rglob] descends into
    every subdirectory, whatever its name. *)
Fixpoint rglob_node (n : node) : list (list string) :=
  match n with
  | Dir es =>
      (fix go (es : list (string * node)) : list (list string) :=
         match es with
         | [] => []
         | (x, c) :: es' =>
             (if fnmatch_svg x then [[x]] else [])
               ++ (cons x <$> rglob_node c) ++ go es'
         end) es
  | _ => []
  end.

(** The file tree and the working directory of the process, a location in
    the tree. *)
Record FileSystem := { root : node; cwd : list string }.

Definition strerror (e : errno) : string :=
  match e with
  | ENOENT => "[Errno 2] No such file or directory"
  | ENOTDIR => "[Errno 20] Not a directory"
  | EEXIST => "[Errno 17] File exists"
  | EISDIR => "[Errno 21] Is a directory"
  end.

(** The [OSError] for [e] on the path [p]. *)
Definition os_error (e : errno) (p : Path) : exn :=
  Exception (strerror e +:+ ": '" +:+ to_string p +:+ "'").

Definition locate (fs : FileSystem) (p : Path) : errno + list string :=
  canon (root fs) (if anchor p then [] else cwd fs) (parts p).

Definition stat (fs : FileSystem) (p : Path) : errno + node :=
  match locate fs p with
  | inr loc => match walk (root fs) loc with Some n => inr n | None => inl ENOENT end
  | inl e => inl e
  end.

(** [p.exists()], [p.is_file()], [p.is_dir()] *)
Definition exists_ (fs : FileSystem) (p : Path) : bool :=
  match stat fs p with inr _ => true | inl _ => false end.
Definition is_file (fs : FileSystem) (p : Path) : bool :=
  match stat fs p with inr (File _) => true | _ => false end.
Definition is_dir (fs : FileSystem) (p : Path) : bool :=
  match stat fs p with inr (Dir _) => true | _ => false end.

(** [os.mkdir(p)] *)
Definition os_mkdir (fs : FileSystem) (p : Path) : errno + FileSystem :=
  match locate fs p with
  | inr loc =>
      match walk (root fs) loc with
      | Some _ => inl EEXIST
      | None => inr {| root := put (root fs) loc (Dir []); cwd := cwd fs |}
      end
  | inl e => inl e
  end.

(** [p.mkdir(parents=False, exist_ok=True)] *)
Definition mkdir_exist_ok (fs : FileSystem) (p : Path) : errno + FileSystem :=
  match os_mkdir fs p with
  | inr fs' => inr fs'
  | inl ENOENT => inl ENOENT
  | inl e => if is_dir fs p then inr fs else inl e
  end.

(** [p.mkdir(parents=True, exist_ok=True)], where [n] is the number of
    parts of [p]: on [FileNotFoundError] pathlib makes the lexical parent
    in the same way and then the directory itself, unless the path is its
    own parent. *)
Fixpoint mkdir_parents_go (n : nat) (fs : FileSystem) (p : Path) : errno + FileSystem :=
  match os_mkdir fs p with
  | inr fs' => inr fs'
  | inl ENOENT =>
      match n with
      | O => inl ENOENT
      | S n' =>
          match mkdir_parents_go n' fs (parent p) with
          | inr fs1 => mkdir_exist_ok fs1 p
          | inl e => inl e
          end
      end
  | inl e => if is_dir fs p then inr fs else inl e
  end.

(** Writing a file: it replaces a regular file or makes a new one; writing
    to a special file leaves the tree as it is. *)
Definition write_file (fs : FileSystem) (p : Path) (bytes : string) : errno + FileSystem :=
  match locate fs p with
  | inr loc =>
      match walk (root fs) loc with
      | Some (Dir _) => inl EISDIR
      | Some (Special _) => inr fs
      | _ => inr {| root := put (root fs) loc (File (Text bytes)); cwd := cwd fs |}
      end
  | inl e => inl e
  end.

(** [directory.glob("*.svg")] and [directory.rglob("*.svg")], in listing
    order. *)
Definition glob (fs : FileSystem) (directory : Path) : list Path :=
  match stat fs directory with
  | inr n => (λ rel, joinpath directory (mkPath false rel)) <$> glob_node n
  | inl _ => []
  end.
Definition rglob (fs : FileSystem) (directory : Path) : list Path :=
  match stat fs directory with
  | inr n => (λ rel, joinpath directory (mkPath false rel)) <$> rglob_node n
  | inl _ => []
  end.

End Fs.

Import Fs.

(** ** The rendering engine *)

(** The calls the program makes on Playwright. *)
Inductive call :=
| Start                                   (* sync_playwright().start() *)
| Launch                                  (* playwright.chromium.launch *)
| NewPage                                 (* browser.new_page() *)
| SetContent (markup : string) (w h : float)  (* page.set_content(html) *)
| WaitForSelector                         (* page.wait_for_selector('svg') *)
| SetViewportSize (w h : Z)               (* page.set_viewport_size *)
| QuerySelector                           (* page.query_selector('svg') *)
| Screenshot (path : string)              (* svg_element.screenshot *)
| ClosePage                               (* page.close() *)
| CloseBrowser                            (* browser.close() *)
| Stop.                                   (* playwright.stop() *)

Global Instance call_eq_dec : EqDecision call.
Proof. solve_decision. Defined.

(** The engine is outside the program: it answers a call from the history
    of calls before it. [respond] is [None] when the call returns and
    [Some msg] when it raises a Playwright error with that message;
    [finds_svg] tells whether [query_selector] returns an element;
    [capture] is the image that a screenshot returns. *)
Record Engine := {
  respond : list call → call → option string;
  finds_svg : list call → bool;
  capture : list call → string;
}.

(** ** The state of a run *)

(** The fields of a [SvgToPngConverter]. A handle field is [true] once it
    holds an object, [false] while it is [None]. *)
Record Converter := {
  scale : float;
  recursive : bool;
  success_count : Z;
  fail_count : Z;
  failed_files : list (string * string);
  playwright : bool;
  browser : bool;
  page : bool;
}.

(** The lines the program prints, one constructor for each [print]. *)
Inductive line :=
| Banner | Separator | Blank | Rule | Elapsed
| ErrPathMissing (p : Path)
| ErrFileMissing (p : Path)
| ErrNotSvg (p : Path)
| ErrDirMissing (p : Path)
| ErrNotDir (p : Path)
| Converting (name : string)
| Succeeded (p : Path)
| FailedWith (error : string)
| Scanning (p : Path)
| NoSvgFound
| Found (n : nat)
| OutputDir (p : Path)
| ScaleInfo (s : float)
| Progress (i : nat) (n : nat) (name : string)
| SummarySuccess (n : Z)
| SummaryFail (n : Z)
| FailedHeader
| FailedEntry (name error : string).

(** Everything outside the converter object: the file system, the engine
    with the calls made on it so far (oldest first), and the lines printed
    so far. *)
Record World := {
  fs : FileSystem;
  engine : Engine;
  calls : list call;
  stdout : list line;
}.

Record State := { self : Converter; world : World }.

Definition set_fs (f : FileSystem) (w : World) : World :=
  {| fs := f; engine := engine w; calls := calls w; stdout := stdout w |}.
Definition add_call (c : call) (w : World) : World :=
  {| fs := fs w; engine := engine w; calls := calls w ++ [c]; stdout := stdout w |}.
Definition add_line (l : line) (w : World) : World :=
  {| fs := fs w; engine := engine w; calls := calls w; stdout := stdout w ++ [l] |}.

(** *** Computations: a state and a value or a raised exception *)

Definition M (A : Type) : Type := State → State * result A.

Global Instance M_ret : MRet M := λ A a s, (s, Ok a).
Global Instance M_bind : MBind M := λ A B f m s,
  match m s with
  | (s', Ok a) => f a s'
  | (s', Raise e) => (s', Raise e)
  end.

Definition raise {A} (e : exn) : M A := λ s, (s, Raise e).
Definition lift {A} (r : result A) : M A := λ s, (s, r).
Definition get_self : M Converter := λ s, (s, Ok (self s)).
Definition get_world : M World := λ s, (s, Ok (world s)).
Definition modify_self (f : Converter → Converter) : M unit :=
  λ s, ({| self := f (self s); world := world s |}, Ok tt).
Definition modify_world (f : World → World) : M unit :=
  λ s, ({| self := self s; world := f (world s) |}, Ok tt).

(** [try: body / except Exception as e: handler(str(e))]. A [SystemExit]
    is not an [Exception] and passes through. *)
Definition try_except {A} (body : M A) (handler : string → M A) : M A :=
  λ s,
    match body s with
    | (s', Raise (Exception msg)) => handler msg s'
    | r => r
    end.

(** [for i, x in enumerate(xs, i): body(i, x)] *)
Fixpoint for_enumerate {A} (i : nat) (xs : list A) (body : nat → A → M unit) : M unit :=
  match xs with
  | [] => mret tt
  | x :: xs' => body i x ;; for_enumerate (S i) xs' body
  end.

Definition print (l : line) : M unit := modify_world (add_line l).

(** *** The file system operations of the program *)

(** [p.mkdir(parents=True, exist_ok=True)] *)
Definition mkdir_parents (p : Path) : M unit :=
  λ s,
    match mkdir_parents_go (length (parts p)) (fs (world s)) p with
    | inr f => ({| self := self s; world := set_fs f (world s) |}, Ok tt)
    | inl e => (s, Raise (os_error e p))
    end.

(** [open(p, 'r', encoding='utf-8').read()] *)
Definition read_text (p : Path) : M string :=
  λ s,
    match stat (fs (world s)) p with
    | inr (File (Text t)) | inr (Special (Text t)) => (s, Ok t)
    | inr (File (Unreadable msg)) | inr (Special (Unreadable msg)) =>
        (s, Raise (Exception msg))
    | inr (Dir _) => (s, Raise (os_error EISDIR p))
    | inl e => (s, Raise (os_error e p))
    end.

(** Writing the bytes of an image to [p]. *)
Definition write_bytes (p : Path) (bytes : string) : M unit :=
  λ s,
    match write_file (fs (world s)) p bytes with
    | inr f => ({| self := self s; world := set_fs f (world s) |}, Ok tt)
    | inl e => (s, Raise (os_error e p))
    end.

(** ** [re.search] for the [viewBox] pattern of [convert_file]

    The pattern is the literal [viewBox=], one quote character (double or
    single), a group of one or more characters that are not quote
    characters, and one quote character (double or single). *)

Module Re.

(** The characters of the class of the pattern: the double quote (code 34)
    and the single quote. *)
Definition is_quote (c : ascii) : bool :=
  bool_decide (c = "034"%char ∨ c = "'"%char).

(** [s] without the prefix [p], when it starts with it. *)
Fixpoint strip_prefix (p s : string) : option string :=
  match p, s with
  | "", _ => Some s
  | String a p', String b s' => if decide (a = b) then strip_prefix p' s' else None
  | _, "" => None
  end.

(** The longest prefix without a quote character, and what follows it:
    what the greedy group takes. *)
Fixpoint span_value (s : string) : string * string :=
  match s with
  | "" => ("", "")
  | String c s' =>
      if is_quote c then ("", s)
      else let '(v, rest) := span_value s' in (String c v, rest)
  end.

(** The pattern matched at the start of [s]; the result is group 1. The
    group is greedy and stops only before a quote character or at the end
    of the text, and a shorter group would be followed by a character that
    is no quote: so the pattern matches exactly when the longest group is
    not empty and a character follows it. *)
Definition match_here (s : string) : option string :=
  match strip_prefix "viewBox=" s with
  | Some (String q rest) =>
      if is_quote q then
        match span_value rest with
        | (String c v, String _ _) => Some (String c v)
        | _ => None
        end
      else None
  | _ => None
  end.

(** [re.search]: the match at the leftmost position that has one. *)
Fixpoint search_viewBox (s : string) : option string :=
  match match_here s with
  | Some v => Some v
  | None =>
      match s with
      | "" => None
      | String _ s' => search_viewBox s'
      end
  end.

End Re.

Import Re.

(** ** [SvgToPngConverter] *)

(** [__init__] *)
Definition __init__ (scale : float) (recursive : bool) : Converter :=
  {| scale := scale; recursive := recursive;
     success_count := 0; fail_count := 0; failed_files := [];
     playwright := false; browser := false; page := false |}.

Definition set_handles (pw br pg : bool) (c : Converter) : Converter :=
  {| scale := scale c; recursive := recursive c;
     success_count := success_count c; fail_count := fail_count c;
     failed_files := failed_files c;
     playwright := pw; browser := br; page := pg |}.

(** [self.success_count += 1] *)
Definition count_success (c : Converter) : Converter :=
  {| scale := scale c; recursive := recursive c;
     success_count := success_count c + 1; fail_count := fail_count c;
     failed_files := failed_files c;
     playwright := playwright c; browser := browser c; page := page c |}.

(** [self.fail_count += 1; self.failed_files.append((name, error_msg))] *)
Definition count_failure (name error_msg : string) (c : Converter) : Converter :=
  {| scale := scale c; recursive := recursive c;
     success_count := success_count c; fail_count := fail_count c + 1;
     failed_files := failed_files c ++ [(name, error_msg)];
     playwright := playwright c; browser := browser c; page := page c |}.

(** A call on the engine: it is recorded, and it returns or raises as the
    engine decides. *)
Definition engine_call (c : call) : M unit :=
  λ s,
    let w := world s in
    let s' := {| self := self s; world := add_call c w |} in
    match respond (engine w) (calls w) c with
    | None => (s', Ok tt)
    | Some msg => (s', Raise (Exception msg))
    end.

(** A method call on [self.page]; on [None] it raises [AttributeError]. *)
Definition page_call (c : call) : M unit :=
  cv ← get_self;
  if page cv then engine_call c
  else raise (Exception "'NoneType' object has no attribute").

(** [__enter__] *)
Definition __enter__ : M unit :=
  engine_call Start ;;
  modify_self (set_handles true false false) ;;
  engine_call Launch ;;
  modify_self (set_handles true true false) ;;
  engine_call NewPage ;;
  modify_self (set_handles true true true).

(** [__exit__] *)
Definition __exit__ : M unit :=
  cv ← get_self;
  (if page cv then engine_call ClosePage else mret tt) ;;
  (if browser cv then engine_call CloseBrowser else mret tt) ;;
  (if playwright cv then engine_call Stop else mret tt).

(** [with self: body]. When [__enter__] raises, neither the body nor
    [__exit__] runs. [__exit__] returns [None], so what the body raised is
    raised again after it; an exception of [__exit__] itself replaces it. *)
Definition then_exit {A} (body : M A) : M A :=
  λ s,
    let '(s1, r) := body s in
    match __exit__ s1 with
    | (s2, Ok _) => (s2, r)
    | (s2, Raise e) => (s2, Raise e)
    end.

Definition with_ {A} (body : M A) : M A := __enter__ ;; then_exit body.

(** The list that [get_svg_files] builds, from the flag [self.recursive]
    and the file system. *)
Definition svg_files_in (recursive : bool) (fs : FileSystem) (directory : Path) : list Path :=
  let svg_files := if recursive then rglob fs directory else glob fs directory in
  sorted svg_files.

(** [get_svg_files] *)
Definition get_svg_files (directory : Path) : M (list Path) :=
  cv ← get_self;
  w ← get_world;
  mret (svg_files_in (recursive cv) (fs w) directory).

(** Lines 130 to 145 of [convert_file]: the width and height taken from the
    text of the document. *)
Definition infer_dimensions (svg_content : string) : result (float * float) :=
  match search_viewBox svg_content with
  | Some group1 =>
      match split group1 with
      | [_; _; v2; v3] =>
          match float_of_string v2 with
          | Ok svg_width =>
              match float_of_string v3 with
              | Ok svg_height => Ok (svg_width, svg_height)
              | Raise e => Raise e
              end
          | Raise e => Raise e
          end
      | _ => Ok (float_of_Z 750, float_of_Z 1000)
      end
  | None => Ok (float_of_Z 750, float_of_Z 1000)
  end.

(** The [try] block of [convert_file]. *)
Definition convert_file_try (svg_path png_path : Path) : M (bool * string) :=
  mkdir_parents (parent png_path) ;;
  svg_content ← read_text svg_path;
  '(svg_width, svg_height) ← lift (infer_dimensions svg_content);
  page_call (SetContent svg_content svg_width svg_height) ;;
  page_call WaitForSelector ;;
  cv ← get_self;
  viewport_width ← lift (int_of_float (fmul svg_width (scale cv)));
  viewport_height ← lift (int_of_float (fmul svg_height (scale cv)));
  page_call (SetViewportSize viewport_width viewport_height) ;;
  page_call QuerySelector ;;
  w ← get_world;
  (if finds_svg (engine w) (calls w)
   then engine_call (Screenshot (to_string png_path)) ;;
        w ← get_world;
        write_bytes png_path (capture (engine w) (calls w))
   else raise (Exception "'NoneType' object has no attribute 'screenshot'")) ;;
  modify_self count_success ;;
  mret (true, "").

(** The [except Exception as e] block of [convert_file], on [str(e)]. *)
Definition convert_file_except (svg_path : Path) (error_msg : string) : M (bool * string) :=
  modify_self (count_failure (name svg_path) error_msg) ;;
  mret (false, error_msg).

(** [convert_file] *)
Definition convert_file (svg_path png_path : Path) : M (bool * string) :=
  try_except (convert_file_try svg_path png_path) (convert_file_except svg_path).

(** [convert_single] *)
Definition convert_single (svg_path : Path) (png_path : option Path) : M bool :=
  w ← get_world;
  if negb (exists_ (fs w) svg_path) then
    print (ErrFileMissing svg_path) ;; mret false
  else if negb (bool_decide (lower_string (suffix svg_path) = ".svg")) then
    print (ErrNotSvg svg_path) ;; mret false
  else
    png_path ← match png_path with
               | None => lift (with_suffix svg_path ".png")
               | Some p => mret p
               end;
    print (Converting (name svg_path)) ;;
    '(success, error) ← convert_file svg_path png_path;
    if success : bool then print (Succeeded png_path) ;; mret true
    else print (FailedWith error) ;; mret false.

(** Lines 283 and 284: the destination of one source file of a batch. *)
Definition png_path_of (input_dir output_dir svg_path : Path) : result Path :=
  match relative_to svg_path input_dir with
  | Ok rel_path =>
      match with_suffix rel_path ".png" with
      | Ok p => Ok (joinpath output_dir p)
      | Raise e => Raise e
      end
  | Raise e => Raise e
  end.

(** Lines 261 to 263: the output directory of a batch. *)
Definition batch_output_dir (input_dir : Path) (output_dir : option Path) : Path :=
  match output_dir with
  | None => joinpath (parent input_dir) (of_string "png_output")
  | Some d => d
  end.

(** The body of the loop of [convert_batch]. *)
Definition batch_step (input_dir output_dir : Path) (total : nat)
    (i : nat) (svg_path : Path) : M unit :=
  png_path ← lift (png_path_of input_dir output_dir svg_path);
  print (Progress i total (name svg_path)) ;;
  convert_file svg_path png_path ;;
  mret tt.

(** [convert_batch] *)
Definition convert_batch (input_dir : Path) (output_dir : option Path) : M unit :=
  w ← get_world;
  if negb (exists_ (fs w) input_dir) then print (ErrDirMissing input_dir)
  else if negb (is_dir (fs w) input_dir) then print (ErrNotDir input_dir)
  else
    let output_dir := batch_output_dir input_dir output_dir in
    mkdir_parents output_dir ;;
    print (Scanning input_dir) ;;
    svg_files ← get_svg_files input_dir;
    match svg_files with
    | [] => print NoSvgFound
    | _ =>
        cv ← get_self;
        print (Found (length svg_files)) ;;
        print (OutputDir output_dir) ;;
        print (ScaleInfo (scale cv)) ;;
        print Blank ;;
        for_enumerate 1 svg_files (batch_step input_dir output_dir (length svg_files))
    end.

(** [print_summary] *)
Definition print_summary : M unit :=
  cv ← get_self;
  print Blank ;; print Rule ;;
  print (SummarySuccess (success_count cv)) ;;
  print (SummaryFail (fail_count cv)) ;;
  print Rule ;;
  match failed_files cv with
  | [] => mret tt
  | fs =>
      print Blank ;; print FailedHeader ;;
      for_enumerate 0 fs (λ _ '(filename, error), print (FailedEntry filename error))
  end.

(** ** [main] *)

(** The parsed command line. *)
Record Args := {
  input_path : string;
  output_path : option string;
  arg_scale : float;
  no_recursive : bool;
}.

(** The block of the [with] statement of [main]. *)
Definition main_dispatch (input_path : Path) (output_path : option Path) : M unit :=
  w ← get_world;
  (if is_file (fs w) input_path then convert_single input_path output_path ;; mret tt
   else if is_dir (fs w) input_path then convert_batch input_path output_path
   else print (ErrPathMissing input_path) ;; raise (SystemExit 1)) ;;
  cv ← get_self;
  if bool_decide (success_count cv > 0 ∨ fail_count cv > 0) then print_summary
  else mret tt.

(** [Path(args.input_path)] and
    [Path(args.output_path) if args.output_path else None] *)
Definition input_of (args : Args) : Path := of_string (input_path args).
Definition output_of (args : Args) : option Path :=
  match output_path args with
  | Some s => if decide (s = "") then None else Some (of_string s)
  | None => None
  end.

(** The body of [main] after argument parsing, on the converter that the
    [with] statement has built. *)
Definition main_body (args : Args) : M unit :=
  print Banner ;; print Separator ;; print Blank ;;
  with_ (main_dispatch (input_of args) (output_of args)) ;;
  print Blank ;; print Elapsed.

(** A run of [main] in the world [w]. *)
Definition main (args : Args) (w : World) : State * result unit :=
  main_body args
    {| self := __init__ (arg_scale args) (negb (no_recursive args)); world := w |}.

(** The exit status of the process: 0 when [main] returns, the code of a
    [SystemExit], 1 after any other exception reaches the top level. *)
Definition exit_code (r : result unit) : Z :=
  match r with
  | Ok _ => 0
  | Raise (SystemExit code) => code
  | Raise (Exception _) => 1
  end.

(** * The vocabulary of the properties *)

(** ** How a computation changes the state *)

(** The calls that belong to a conversion job; all others start or stop
    the engine. *)
Definition job_call (c : call) : bool :=
  match c with
  | SetContent _ _ _ | WaitForSelector | SetViewportSize _ _
  | QuerySelector | Screenshot _ => true
  | _ => false
  end.

(** [evolves f ls s s']: from [s] to [s'] the converter object changed by
    [f], the lines [ls] were printed, only calls of conversion jobs were
    made, and the engine and the working directory are the same. The file
    tree may have changed. *)
Record evolves (f : Converter → Converter) (ls : list line) (s s' : State) : Prop := {
  ev_self : self s' = f (self s);
  ev_engine : engine (world s') = engine (world s);
  ev_cwd : cwd (fs (world s')) = cwd (fs (world s));
  ev_stdout : stdout (world s') = stdout (world s) ++ ls;
  ev_calls : ∃ cs, calls (world s') = calls (world s) ++ cs
                   ∧ Forall (λ c, job_call c = true) cs;
}.

(** A computation is [steady] when it leaves the converter object alone,
    prints nothing and raises nothing but instances of [Exception]. *)
Definition steady {A} (m : M A) : Prop :=
  ∀ s, evolves id [] s (m s).1 ∧ ∀ code, (m s).2 ≠ Raise (SystemExit code).

(** How a computation that ends a [try] block of [convert_file] may end:
    with [(True, "")] after counting a success, or with an [Exception]
    and the converter object as it was. *)
Definition ends_counting (m : M (bool * string)) : Prop :=
  ∀ s,
    match m s with
    | (s', Ok r) => r = (true, "") ∧ evolves count_success [] s s'
    | (s', Raise (Exception _)) => evolves id [] s s'
    | (_, Raise (SystemExit _)) => False
    end.

(** [tally n f]: what [n] finished jobs do to the converter object. Each
    job adds one to exactly one counter, each failure adds one entry to
    [failed_files], and nothing else changes. *)
Record tally (n : nat) (f : Converter → Converter) : Prop := {
  tally_sum : ∀ c, success_count (f c) + fail_count (f c)
                   = success_count c + fail_count c + Z.of_nat n;
  tally_success : ∀ c, success_count c ≤ success_count (f c);
  tally_fail : ∀ c, fail_count c ≤ fail_count (f c);
  tally_failed : ∀ c, Z.of_nat (length (failed_files (f c))) - fail_count (f c)
                      = Z.of_nat (length (failed_files c)) - fail_count c;
  tally_rest : ∀ c, scale (f c) = scale c ∧ recursive (f c) = recursive c
                    ∧ playwright (f c) = playwright c ∧ browser (f c) = browser c
                    ∧ page (f c) = page c;
}.

(** ** What [convert_batch] and [main] do, read off the state *)

(** The files that a call of [convert_batch] enumerates: none when it
    returns before line 269 or when making the output directory raises,
    and else the list [svg_files]. *)
Definition batch_jobs (input_dir : Path) (output_dir : option Path) (s : State) : list Path :=
  let f := fs (world s) in
  let out := batch_output_dir input_dir output_dir in
  if exists_ f input_dir && is_dir f input_dir then
    match mkdir_parents_go (length (parts out)) f out with
    | inr f' => svg_files_in (recursive (self s)) f' input_dir
    | inl _ => []
    end
  else [].

(** What a call of [convert_batch] returns or raises: only making the
    output directory can raise. *)
Definition batch_result (input_dir : Path) (output_dir : option Path) (s : State) : result unit :=
  let f := fs (world s) in
  let out := batch_output_dir input_dir output_dir in
  if exists_ f input_dir && is_dir f input_dir then
    match mkdir_parents_go (length (parts out)) f out with
    | inr _ => Ok tt
    | inl e => Raise (os_error e out)
    end
  else Ok tt.

(** An engine whose calls outside conversion jobs (starting and stopping)
    all return. *)
Definition lifecycle_ok (E : Engine) : Prop :=
  ∀ h c, job_call c = false → respond E h c = None.

(** The state after [__enter__], and after [__exit__]. *)
Definition entered (s : State) : State :=
  {| self := set_handles true true true (self s);
     world := add_call NewPage (add_call Launch (add_call Start (world s))) |}.
Definition exited (s : State) : State :=
  {| self := self s;
     world := add_call Stop (add_call CloseBrowser (add_call ClosePage (world s))) |}.

(** What the block returns or raises: [SystemExit(1)] on a path that is
    neither a regular file nor a directory, and else only what
    [convert_batch] raises. *)
Definition dispatch_result (input_path : Path) (output_path : option Path) (s : State) :
    result unit :=
  if is_file (fs (world s)) input_path then Ok tt
  else if is_dir (fs (world s)) input_path then batch_result input_path output_path s
  else Raise (SystemExit 1).

(** The state in which [main] enters its [with] statement. *)
Definition main_start (args : Args) (w : World) : State :=
  {| self := __init__ (arg_scale args) (negb (no_recursive args));
     world := add_line Blank (add_line Separator (add_line Banner w)) |}.

(** What a run returns or raises when the engine starts and stops. *)
Definition main_result (args : Args) (w : World) : result unit :=
  dispatch_result (input_of args) (output_of args) (main_start args w).

(** ** Texts and their view box *)

(** [no_quote v]: no character of [v] is a quote character. *)
Fixpoint no_quote (v : string) : Prop :=
  match v with
  | "" => True
  | String c v' => is_quote c = false ∧ no_quote v'
  end.

(** [no_space v]: no character of [v] is white space. *)
Fixpoint no_space (v : string) : Prop :=
  match v with
  | "" => True
  | String c v' => isspace c = false ∧ no_space v'
  end.

(** *** The pattern as the specification words it *)

(** The text before the first occurrence of [q]. *)
Fixpoint until_char (q : ascii) (s : string) : option string :=
  match s with
  | "" => None
  | String c s' => if decide (c = q) then Some "" else String c <$> until_char q s'
  end.

(** The attribute at the start of [s], written with one kind of quote on
    both sides: [viewBox=], a quote, the value, the same quote. *)
Definition quoted_here (s : string) : option string :=
  match strip_prefix "viewBox=" s with
  | Some (String q rest) => if is_quote q then until_char q rest else None
  | _ => None
  end.

(** The first substring of that form. *)
Fixpoint quoted_search (s : string) : option string :=
  match quoted_here s with
  | Some v => Some v
  | None =>
      match s with
      | "" => None
      | String _ s' => quoted_search s'
      end
  end.

(** The dimensions that the first substring of that form gives. *)
Definition quoted_dimensions (svg_content : string) : result (float * float) :=
  match quoted_search svg_content with
  | Some value =>
      match split value with
      | [_; _; v2; v3] =>
          match float_of_string v2 with
          | Ok svg_width =>
              match float_of_string v3 with
              | Ok svg_height => Ok (svg_width, svg_height)
              | Raise e => Raise e
              end
          | Raise e => Raise e
          end
      | _ => Ok (float_of_Z 750, float_of_Z 1000)
      end
  | None => Ok (float_of_Z 750, float_of_Z 1000)
  end.

(** ** Places in the file tree *)

(** [sibling f p q]: the two paths stand for two different entries of one
    directory. *)
Definition sibling (f : FileSystem) (p q : Path) : Prop :=
  ∃ d x y, locate f p = inr (d ++ [x]) ∧ locate f q = inr (d ++ [y]) ∧ x ≠ y.

(** [below n rel]: following the names [rel] from the directory [n] leads
    through entries of the tree. *)
Fixpoint below (n : node) (rel : list string) : Prop :=
  match rel with
  | [] => True
  | x :: rel' =>
      match n with
      | Dir es => ∃ c, (x, c) ∈ es ∧ below c rel'
      | _ => False
      end
  end.

(** ** Small worlds for examples *)

Module Demo.

(** An engine on which every call succeeds. *)
Definition good_engine : Engine :=
  {| respond := λ _ _, None; finds_svg := λ _, true; capture := λ _, "PNG" |}.

(** The tree:
    [/proj/svgs/b.svg], a document with a view box;
    [/proj/svgs/a.svg], which cannot be read;
    [/proj/svgs/sub/c.svg], a document without a view box;
    [/proj/notes.txt]; and the device [/dev/null].
    The working directory is [/proj]. *)
Definition tree : node :=
  Dir [("proj",
        Dir [("svgs",
              Dir [("b.svg", File (Text "<svg viewBox='0 0 200 300'></svg>"));
                   ("a.svg", File (Unreadable "[Errno 13] Permission denied: 'svgs/a.svg'"));
                   ("sub", Dir [("c.svg", File (Text "<svg></svg>"))])]);
             ("notes.txt", File (Text "remember the milk"))]);
       ("dev", Dir [("null", Special (Text ""))])].

Definition world0 : World :=
  {| fs := {| root := tree; cwd := ["proj"] |};
     engine := good_engine; calls := []; stdout := [] |}.

(** A converter at scale 2 whose engine has been started. *)
Definition started : State :=
  {| self := set_handles true true true (__init__ (float_of_Z 2) true);
     world := world0 |}.

(** A started converter at the scale [sc], in a directory that holds the
    one document [doc.svg] with the text [text]. *)
Definition doc_state (sc : float) (text : string) : State :=
  {| self := set_handles true true true (__init__ sc true);
     world := {| fs := {| root := Dir [("doc.svg", File (Text text))]; cwd := [] |};
                 engine := good_engine; calls := []; stdout := [] |} |}.

(** The double quote, as a string. *)
Definition dq : string := String "034" "".

(** The binary64 values 1 and 0.25. *)
Definition one : float := float_of_Z 1.
Definition quarter : float := S754_finite false 4503599627370496 (-54).

End Demo.

Module DemoDir.

(** The working directory holds the document [a.svg] and the directory
    [icons.svg], with one file in it. *)
Definition files : FileSystem :=
  {| root := Dir [("icons.svg", Dir [("readme.txt", File (Text "icons"))]);
                  ("a.svg", File (Text "<svg></svg>"))];
     cwd := [] |}.

Definition state : State :=
  {| self := set_handles true true true (__init__ Demo.one true);
     world := {| fs := files; engine := Demo.good_engine; calls := []; stdout := [] |} |}.

End DemoDir.

(** ** The working directory *)

(** [has_cwd f]: the working directory of [f] is a directory of its tree
    (and so is the root). *)
Definition has_cwd (f : FileSystem) : Prop :=
  ∃ es, walk (root f) (cwd f) = Some (Dir es).

(** [is_directory n]: the node is a directory. *)
Definition is_directory (n : node) : Prop :=
  match n with Dir _ => True | _ => False end.

(** [keeps P f f']: from [f] to [f'] the working directory is the same,
    every directory is still a directory, and every regular file at a
    location that satisfies [P] still has its content. *)
Definition keeps (P : list string → Prop) (f f' : FileSystem) : Prop :=
  cwd f' = cwd f
  ∧ (∀ l es, walk (root f) l = Some (Dir es) → ∃ es', walk (root f') l = Some (Dir es'))
  ∧ (∀ l c, P l → walk (root f) l = Some (File c) → walk (root f') l = Some (File c)).

(** ** The counters of a converter *)

(** [consistent c]: the counters are not negative and [failed_files] has
    one entry for each failure counted. *)
Definition consistent (c : Converter) : Prop :=
  0 ≤ success_count c ∧ 0 ≤ fail_count c
  ∧ Z.of_nat (length (failed_files c)) = fail_count c.

(** [preserves m]: the computation keeps the counters consistent. *)
Definition preserves {A} (m : M A) : Prop :=
  ∀ s, consistent (self s) → consistent (self (m s).1).

(** ** The files a run leaves alone *)

(** [png_name x]: the name ends in [.png]. *)
Definition png_name (x : string) : Prop := ∃ stem, x = stem +:+ ".png".

(** [not_png l]: the location is not that of an entry with such a name. *)
Definition not_png (l : list string) : Prop := ∀ d x, l = d ++ [x] → ¬ png_name x.

(** [spares P m]: when the working directory exists, the computation keeps
    every directory and the regular files at the locations that satisfy
    [P]. *)
Definition spares {A} (P : list string → Prop) (m : M A) : Prop :=
  ∀ s, has_cwd (fs (world s)) → keeps P (fs (world s)) (fs (world (m s).1)).

(** ** A converter that cannot start *)

(** The calls of [__enter__] up to the first one that fails, with the
    message of its exception; [None] when all three return. *)
Definition enter_failure (E : Engine) (h : list call) : option (list call * string) :=
  match respond E h Start with
  | Some msg => Some ([Start], msg)
  | None =>
      match respond E (h ++ [Start]) Launch with
      | Some msg => Some ([Start; Launch], msg)
      | None =>
          match respond E (h ++ [Start; Launch]) NewPage with
          | Some msg => Some ([Start; Launch; NewPage], msg)
          | None => None
          end
      end
  end.

(** [math.isfinite] *)
Definition isfinite (x : float) : bool :=
  match x with
  | S754_zero _ | S754_finite _ _ _ => true
  | S754_infinity _ | S754_nan => false
  end.

(** ** The lines of a run *)

(** The lines of the guards of [convert_single] and [convert_batch]. *)
Definition guard_line (l : line) : bool :=
  match l with
  | ErrFileMissing _ | ErrDirMissing _ | ErrNotDir _ => true
  | _ => false
  end.

(** The lines that only [print_summary] prints. *)
Definition summary_line (l : line) : bool :=
  match l with
  | Rule | SummarySuccess _ | SummaryFail _ | FailedHeader | FailedEntry _ _ => true
  | _ => false
  end.

(** The lines of the summary of a converter. *)
Definition summary_lines (c : Converter) : list line :=
  [Blank; Rule; SummarySuccess (success_count c); SummaryFail (fail_count c); Rule]
  ++ match failed_files c with
     | [] => []
     | entries =>
         Blank :: FailedHeader
         :: ((λ '(filename, error), FailedEntry filename error) <$> entries)
     end.

(** A line of the conversion itself: no line of a guard and none that only
    the summary has. *)
Definition plain_line (l : line) : Prop := summary_line l = false ∧ guard_line l = false.

(** [prints P m]: the computation only adds lines to the output, and each
    of them satisfies [P]. *)
Definition prints {A} (P : line → Prop) (m : M A) : Prop :=
  ∀ s, ∃ ls, stdout (world (m s).1) = stdout (world s) ++ ls ∧ Forall P ls.

(** * Properties *)

(** ** Running computations *)

Lemma bind_run {A B} (m : M A) (k : A → M B) (s : State) :
  (m ≫= k) s =
  match m s with
  | (s', Ok a) => k a s'
  | (s', Raise e) => (s', Raise e)
  end.
Proof. reflexivity. Qed.

Lemma ret_run {A} (a : A) (s : State) : (mret a : M A) s = (s, Ok a).
Proof. reflexivity. Qed.

Lemma evolves_refl (s : State) : evolves id [] s s.
Proof.
  split; try reflexivity; [by rewrite app_nil_r|].
  exists []. by rewrite app_nil_r.
Qed.

Lemma evolves_trans (f g : Converter → Converter) (ls1 ls2 : list line)
    (s1 s2 s3 : State) :
  evolves f ls1 s1 s2 → evolves g ls2 s2 s3 → evolves (g ∘ f) (ls1 ++ ls2) s1 s3.
Proof.
  intros [H1 H2 H3 H4 (cs1 & H5 & H6)] [K1 K2 K3 K4 (cs2 & K5 & K6)].
  split; simpl; try congruence.
  - rewrite K4, H4. by rewrite app_assoc.
  - exists (cs1 ++ cs2). split.
    + rewrite K5, H5. by rewrite app_assoc.
    + by apply Forall_app.
Qed.

Lemma steady_ret {A} (a : A) : steady (mret a : M A).
Proof. intros s. split; [apply evolves_refl | done]. Qed.

Lemma steady_bind {A B} (m : M A) (k : A → M B) :
  steady m → (∀ a, steady (k a)) → steady (m ≫= k).
Proof.
  intros Hm Hk s. rewrite bind_run.
  destruct (Hm s) as [Hq Hx]. destruct (m s) as [s1 [a|e]]; simpl in *.
  - destruct (Hk a s1) as [Hq' Hx']. split; [|done].
    by apply (evolves_trans id id [] [] s s1).
  - split; [done|]. intros code [= ->]. by apply (Hx code).
Qed.

Lemma steady_get_self : steady get_self.
Proof. intros s. split; [apply evolves_refl | done]. Qed.

Lemma steady_get_world : steady get_world.
Proof. intros s. split; [apply evolves_refl | done]. Qed.

Lemma steady_raise {A} (msg : string) : steady (raise (Exception msg) : M A).
Proof. intros s. split; [apply evolves_refl | done]. Qed.

Lemma steady_engine_call (c : call) : job_call c = true → steady (engine_call c).
Proof.
  intros Hc s. unfold engine_call.
  assert (evolves id [] s {| self := self s; world := add_call c (world s) |}) as Hq.
  { split; simpl; try reflexivity; [by rewrite app_nil_r|].
    exists [c]. split; [done | by constructor]. }
  destruct (respond _ _ _); simpl; done.
Qed.

Lemma steady_page_call (c : call) : job_call c = true → steady (page_call c).
Proof.
  intros Hc. unfold page_call. apply steady_bind; [apply steady_get_self|].
  intros cv. destruct (page cv); [by apply steady_engine_call | apply steady_raise].
Qed.

Lemma os_mkdir_cwd (f f' : FileSystem) (p : Path) :
  os_mkdir f p = inr f' → cwd f' = cwd f.
Proof.
  unfold os_mkdir. destruct (locate f p); [done|].
  destruct (walk _ _); [done|]. by intros [= <-].
Qed.

Lemma mkdir_exist_ok_cwd (f f' : FileSystem) (p : Path) :
  mkdir_exist_ok f p = inr f' → cwd f' = cwd f.
Proof.
  unfold mkdir_exist_ok. destruct (os_mkdir f p) as [e|f1] eqn:E.
  - destruct e; try done; destruct (is_dir f p); congruence.
  - intros [= <-]. by eapply os_mkdir_cwd.
Qed.

Lemma mkdir_parents_go_cwd (n : nat) (f f' : FileSystem) (p : Path) :
  mkdir_parents_go n f p = inr f' → cwd f' = cwd f.
Proof.
  revert f f' p. induction n as [|n IH]; intros f f' p; simpl;
    destruct (os_mkdir f p) as [e|f1] eqn:E;
    try (intros [= <-]; by eapply os_mkdir_cwd).
  - destruct e; try done; destruct (is_dir f p); congruence.
  - destruct e; try (destruct (is_dir f p); congruence).
    destruct (mkdir_parents_go n f (parent p)) as [e|f2] eqn:E2; [done|].
    intros H. apply mkdir_exist_ok_cwd in H. apply IH in E2. congruence.
Qed.

Lemma steady_mkdir_parents (p : Path) : steady (mkdir_parents p).
Proof.
  intros s. unfold mkdir_parents.
  destruct (mkdir_parents_go _ _ _) as [e|f] eqn:E; simpl.
  - split; [apply evolves_refl | done].
  - split; [|done]. split; simpl; try reflexivity.
    + by eapply mkdir_parents_go_cwd.
    + by rewrite app_nil_r.
    + exists []. by rewrite app_nil_r.
Qed.

Lemma steady_read_text (p : Path) : steady (read_text p).
Proof.
  intros s. unfold read_text.
  destruct (stat _ _) as [e|[[t|msg]|[t|msg]|es]]; simpl;
    (split; [apply evolves_refl | done]).
Qed.

Lemma write_file_cwd (f f' : FileSystem) (p : Path) (b : string) :
  write_file f p b = inr f' → cwd f' = cwd f.
Proof.
  unfold write_file. destruct (locate f p); [done|].
  destruct (walk _ _) as [[| |]|]; try done; by intros [= <-].
Qed.

Lemma steady_write_bytes (p : Path) (b : string) : steady (write_bytes p b).
Proof.
  intros s. unfold write_bytes.
  destruct (write_file _ _ _) as [e|f] eqn:E; simpl.
  - split; [apply evolves_refl | done].
  - split; [|done]. split; simpl; try reflexivity.
    + by eapply write_file_cwd.
    + by rewrite app_nil_r.
    + exists []. by rewrite app_nil_r.
Qed.

Lemma float_of_string_exn (x : string) (e : exn) :
  float_of_string x = Raise e → ∃ msg, e = Exception msg.
Proof. unfold float_of_string. destruct (parse_float x); naive_solver. Qed.

Lemma infer_dimensions_exn (text : string) (e : exn) :
  infer_dimensions text = Raise e → ∃ msg, e = Exception msg.
Proof.
  unfold infer_dimensions. destruct (search_viewBox text) as [g|]; [|done].
  destruct (split g) as [|? [|? [|v2 [|v3 [|]]]]]; try done.
  destruct (float_of_string v2) eqn:E2.
  - destruct (float_of_string v3) eqn:E3; [done|].
    intros [= <-]. by eapply float_of_string_exn.
  - intros [= <-]. by eapply float_of_string_exn.
Qed.

Lemma int_of_float_exn (x : float) (e : exn) :
  int_of_float x = Raise e → ∃ msg, e = Exception msg.
Proof. destruct x; naive_solver. Qed.

Lemma steady_lift {A} (r : result A) :
  (∀ e, r = Raise e → ∃ msg, e = Exception msg) → steady (lift r).
Proof.
  intros Hr s. split; [apply evolves_refl|]. simpl. intros code ->.
  by destruct (Hr _ eq_refl).
Qed.

(** ** One conversion job *)

Lemma ends_counting_bind {A} (m : M A) (k : A → M (bool * string)) :
  steady m → (∀ a, ends_counting (k a)) → ends_counting (m ≫= k).
Proof.
  intros Hm Hk s. rewrite bind_run.
  destruct (Hm s) as [Hq Hx]. destruct (m s) as [s1 [a|[msg|code]]]; simpl in *.
  - specialize (Hk a s1). destruct (k a s1) as [s2 [r|[msg|code]]].
    + destruct Hk as [-> Hk]. split; [done|].
      by apply (evolves_trans id count_success [] [] s s1).
    + by apply (evolves_trans id id [] [] s s1).
    + done.
  - done.
  - by destruct (Hx code).
Qed.

Lemma ends_counting_success :
  ends_counting (modify_self count_success ;; mret (true, "")).
Proof.
  intros s. simpl. split; [done|].
  split; simpl; try reflexivity; [by rewrite app_nil_r|].
  exists []. by rewrite app_nil_r.
Qed.

Lemma convert_file_try_ends (svg_path png_path : Path) :
  ends_counting (convert_file_try svg_path png_path).
Proof.
  unfold convert_file_try.
  apply ends_counting_bind; [apply steady_mkdir_parents | intros _].
  apply ends_counting_bind; [apply steady_read_text | intros svg_content].
  apply ends_counting_bind;
    [apply steady_lift, infer_dimensions_exn | intros [svg_width svg_height]].
  apply ends_counting_bind; [by apply steady_page_call | intros _].
  apply ends_counting_bind; [by apply steady_page_call | intros _].
  apply ends_counting_bind; [apply steady_get_self | intros cv].
  apply ends_counting_bind; [apply steady_lift, int_of_float_exn | intros vw].
  apply ends_counting_bind; [apply steady_lift, int_of_float_exn | intros vh].
  apply ends_counting_bind; [by apply steady_page_call | intros _].
  apply ends_counting_bind; [by apply steady_page_call | intros _].
  apply ends_counting_bind; [apply steady_get_world | intros w].
  apply ends_counting_bind; [| intros _; apply ends_counting_success].
  destruct (finds_svg _ _); [|apply steady_raise].
  apply steady_bind; [by apply steady_engine_call | intros _].
  apply steady_bind; [apply steady_get_world | intros w'].
  apply steady_write_bytes.
Qed.

(** [convert_file] always returns: [(True, "")] after counting a success, or
    [(False, msg)] after counting a failure under the name of the source
    file. *)
Lemma convert_file_outcome (svg_path png_path : Path) (s : State) :
  ∃ s' b msg,
    convert_file svg_path png_path s = (s', Ok (b, msg))
    ∧ if b then msg = "" ∧ evolves count_success [] s s'
      else evolves (count_failure (name svg_path) msg) [] s s'.
Proof.
  unfold convert_file, try_except.
  pose proof (convert_file_try_ends svg_path png_path s) as H.
  destruct (convert_file_try svg_path png_path s) as [s1 [r|[msg|code]]].
  - destruct H as [-> H]. by exists s1, true, "".
  - eexists _, false, msg. split; [reflexivity|].
    destruct H as [H1 H2 H3 H4 H5]. split; simpl; try done.
    by rewrite H1.
  - done.
Qed.

(** ** Enumeration *)

Lemma fnmatch_svg_nonempty (x : string) : fnmatch_svg x = true → x ≠ "".
Proof.
  unfold fnmatch_svg. intros [Hlen _]%bool_decide_eq_true ->. simpl in Hlen. lia.
Qed.

(** Every relative path that [rglob] finds ends in a name that matches. *)
Lemma rglob_node_shape (n : node) (rel : list string) :
  rel ∈ rglob_node n → ∃ dirs x, rel = dirs ++ [x] ∧ fnmatch_svg x = true.
Proof.
  revert rel. induction n as [c|c|es IH] using node_ind; intros rel; simpl;
    try (by intros ?%elem_of_nil).
  induction es as [|[x c] es IHes]; [by intros ?%elem_of_nil|].
  inversion_clear IH as [|?? Hc Hes]. rewrite !elem_of_app. intros [H|[H|H]].
  - destruct (fnmatch_svg x) eqn:E; [|by apply elem_of_nil in H].
    apply list_elem_of_singleton in H as ->. by exists [], x.
  - apply list_elem_of_fmap in H as (rel' & -> & H).
    destruct (Hc rel' H) as (dirs & y & -> & Hy). by exists (x :: dirs), y.
  - by apply IHes.
Qed.

Lemma glob_node_shape (n : node) (rel : list string) :
  rel ∈ glob_node n → ∃ x, rel = [x] ∧ fnmatch_svg x = true.
Proof.
  destruct n as [c|c|es]; simpl; try (by intros ?%elem_of_nil).
  intros (e & -> & [He _]%list_elem_of_filter)%list_elem_of_fmap. by exists e.1.
Qed.

(** What [get_svg_files] returns are paths below the directory that end in a
    matching name. *)
Lemma svg_files_in_shape (rec : bool) (f : FileSystem) (directory p : Path) :
  p ∈ svg_files_in rec f directory →
  ∃ dirs x, fnmatch_svg x = true
            ∧ p = joinpath directory (mkPath false (dirs ++ [x])).
Proof.
  unfold svg_files_in, sorted. rewrite merge_sort_Permutation.
  destruct rec; unfold rglob, glob; destruct (stat f directory) as [e|n];
    try (by intros ?%elem_of_nil);
    intros (rel & -> & H)%list_elem_of_fmap.
  - apply rglob_node_shape in H as (dirs & x & -> & Hx). by exists dirs, x.
  - apply glob_node_shape in H as (x & -> & Hx). by exists [], x.
Qed.

(** The destination of such a path: the same directories below the output
    directory, the name with its suffix changed. *)
Lemma png_path_of_enumerated (input_dir output_dir : Path) (dirs : list string) (x : string) :
  x ≠ "" →
  png_path_of input_dir output_dir (joinpath input_dir (mkPath false (dirs ++ [x])))
  = Ok (joinpath output_dir (mkPath false (dirs ++ [name_with_suffix x ".png"]))).
Proof.
  intros Hx. unfold png_path_of, relative_to, joinpath at 2. simpl.
  rewrite decide_True by (split; [done | by apply prefix_app_r]).
  rewrite drop_app_length. unfold with_suffix, name. simpl.
  rewrite List.last_last. rewrite decide_False by done.
  by rewrite List.removelast_last.
Qed.

Lemma svg_files_in_png_path (rec : bool) (f : FileSystem) (input_dir output_dir : Path) :
  Forall (λ p, ∃ png, png_path_of input_dir output_dir p = Ok png)
         (svg_files_in rec f input_dir).
Proof.
  apply Forall_forall. intros p (dirs & x & Hx & ->)%svg_files_in_shape.
  eexists. apply png_path_of_enumerated. by apply fnmatch_svg_nonempty.
Qed.

(** ** The batch loop *)

Lemma tally_id : tally 0 id.
Proof. split; intros c; simpl; try lia; done. Qed.

Lemma tally_count_success : tally 1 count_success.
Proof. split; intros c; simpl; try lia; done. Qed.

Lemma tally_count_failure (name msg : string) : tally 1 (count_failure name msg).
Proof.
  split; intros c; simpl; try lia; try done.
  rewrite length_app. simpl. lia.
Qed.

Lemma tally_compose (n m : nat) (f g : Converter → Converter) :
  tally n f → tally m g → tally (n + m) (g ∘ f).
Proof.
  intros [F1 F2 F3 F4 F5] [G1 G2 G3 G4 G5]. split; intros c; simpl.
  - rewrite G1, F1. lia.
  - specialize (F2 c). specialize (G2 (f c)). lia.
  - specialize (F3 c). specialize (G3 (f c)). lia.
  - rewrite G4, F4. done.
  - destruct (F5 c) as (? & ? & ? & ? & ?), (G5 (f c)) as (? & ? & ? & ? & ?).
    repeat split; congruence.
Qed.

Lemma print_run (l : line) (s : State) :
  print l s = ({| self := self s; world := add_line l (world s) |}, Ok tt).
Proof. reflexivity. Qed.

Lemma evolves_print (l : line) (s : State) :
  evolves id [l] s {| self := self s; world := add_line l (world s) |}.
Proof. split; simpl; try done. exists []. by rewrite app_nil_r. Qed.

Lemma for_enumerate_app {A} (i : nat) (xs ys : list A) (body : nat → A → M unit) (s : State) :
  for_enumerate i (xs ++ ys) body s
  = (for_enumerate i xs body ;; for_enumerate (i + length xs) ys body) s.
Proof.
  revert i s. induction xs as [|x xs IH]; intros i s; simpl.
  - by rewrite Nat.add_0_r.
  - rewrite !bind_run. destruct (body i x s) as [s1 [[]|e]]; [|done].
    rewrite IH. by rewrite Nat.add_succ_r.
Qed.

(** One turn of the loop on an enumerated file: the progress line, then
    one job, whatever its outcome. *)
Lemma batch_step_run (input_dir output_dir : Path) (total i : nat) (svg_path png_path : Path)
    (s : State) :
  png_path_of input_dir output_dir svg_path = Ok png_path →
  ∃ s' f,
    batch_step input_dir output_dir total i svg_path s = (s', Ok tt)
    ∧ evolves f [Progress i total (name svg_path)] s s'
    ∧ tally 1 f.
Proof.
  intros Hpng. unfold batch_step. rewrite Hpng. rewrite bind_run. simpl.
  rewrite bind_run, print_run. rewrite bind_run.
  set (s1 := {| self := self s; world := add_line _ (world s) |}).
  destruct (convert_file_outcome svg_path png_path s1) as (s' & b & msg & -> & H).
  pose proof (evolves_print (Progress i total (name svg_path)) s) as Hp.
  destruct b.
  - destruct H as [-> H]. exists s', count_success. split; [done|].
    split; [|apply tally_count_success].
    by apply (evolves_trans id count_success [_] [] s s1).
  - exists s', (count_failure (name svg_path) msg). split; [done|].
    split; [|apply tally_count_failure].
    by apply (evolves_trans id (count_failure (name svg_path) msg) [_] [] s s1).
Qed.

(** The loop over enumerated files never raises: it runs one job for every
    file, in order. *)
Lemma batch_loop_run (input_dir output_dir : Path) (total : nat) (jobs : list Path) :
  Forall (λ p, ∃ png, png_path_of input_dir output_dir p = Ok png) jobs →
  ∀ i s, ∃ s' f,
    for_enumerate i jobs (batch_step input_dir output_dir total) s = (s', Ok tt)
    ∧ evolves f (imap (λ k p, Progress (i + k) total (name p)) jobs) s s'
    ∧ tally (length jobs) f.
Proof.
  induction 1 as [|p jobs [png Hp] _ IH]; intros i s.
  - exists s, id. split; [done|]. split; [apply evolves_refl | apply tally_id].
  - destruct (batch_step_run input_dir output_dir total i p png s Hp)
      as (s1 & f & Hrun & Hev & Hf).
    destruct (IH (S i) s1) as (s2 & g & Hrun' & Hev' & Hg).
    exists s2, (g ∘ f). split; [|split].
    + simpl. by rewrite bind_run, Hrun.
    + rewrite imap_cons, Nat.add_0_r.
      replace (imap _ jobs) with (imap (λ k q, Progress (S i + k) total (name q)) jobs).
      * by apply (evolves_trans f g [_] _ s s1).
      * apply imap_ext. intros k q _. simpl. f_equal. lia.
    + by apply (tally_compose 1 (length jobs)).
Qed.

(** ** [convert_batch] *)

Lemma convert_batch_run (input_dir : Path) (output_dir : option Path) (s : State) :
  ∃ s' f ls,
    convert_batch input_dir output_dir s = (s', batch_result input_dir output_dir s)
    ∧ evolves f ls s s'
    ∧ tally (length (batch_jobs input_dir output_dir s)) f.
Proof.
  unfold convert_batch, batch_jobs, batch_result. rewrite bind_run. simpl.
  destruct (exists_ (fs (world s)) input_dir); simpl.
  2:{ eexists _, id, [_]. rewrite print_run.
      split; [done|]. split; [apply evolves_print | apply tally_id]. }
  destruct (is_dir (fs (world s)) input_dir); simpl.
  2:{ eexists _, id, [_]. rewrite print_run.
      split; [done|]. split; [apply evolves_print | apply tally_id]. }
  set (out := batch_output_dir input_dir output_dir).
  rewrite bind_run. unfold mkdir_parents at 1.
  destruct (mkdir_parents_go (length (parts out)) (fs (world s)) out) as [e|f'] eqn:Hmk.
  { exists s, id, []. split; [done|]. split; [apply evolves_refl | apply tally_id]. }
  set (s1 := {| self := self s; world := set_fs f' (world s) |}).
  assert (evolves id [] s s1) as H1.
  { split; simpl; try done.
    - by eapply mkdir_parents_go_cwd.
    - by rewrite app_nil_r.
    - exists []. by rewrite app_nil_r. }
  rewrite bind_run, print_run.
  set (s2 := {| self := self s1; world := add_line _ (world s1) |}).
  pose proof (evolves_print (Scanning input_dir) s1) as H2. fold s2 in H2.
  pose proof (evolves_trans _ _ _ _ _ _ _ H1 H2) as H12.
  rewrite bind_run. unfold get_svg_files at 1. simpl.
  pose proof (svg_files_in_png_path (recursive (self s)) f' input_dir out) as Hjobs.
  destruct (svg_files_in (recursive (self s)) f' input_dir) as [|p jobs].
  { eexists _, _, _. rewrite print_run. split; [done|].
    split; [|apply (tally_compose 0 0 _ _ tally_id tally_id)].
    eapply evolves_trans; [exact H12 | apply evolves_print]. }
  rewrite bind_run. unfold get_self at 1. cbv beta iota.
  do 4 (rewrite bind_run, print_run; cbv beta iota).
  set (s3 := {| self := self _; world := add_line Blank _ |}).
  assert (evolves id [Found (length (p :: jobs)); OutputDir out;
                      ScaleInfo (scale (self s2)); Blank] s2 s3) as H3.
  { split; simpl; try done.
    - by rewrite <- !app_assoc.
    - exists []. by rewrite app_nil_r. }
  pose proof (evolves_trans _ _ _ _ _ _ _ H12 H3) as H123.
  destruct (batch_loop_run input_dir out (length (p :: jobs)) (p :: jobs) Hjobs 1 s3)
    as (s4 & f & Hrun & Hev & Hf).
  eexists s4, _, _. split; [exact Hrun|].
  split; [exact (evolves_trans _ _ _ _ _ _ _ H123 Hev)|].
  apply (tally_compose 0 _ _ _
           (tally_compose 0 0 _ _ (tally_compose 0 0 _ _ tally_id tally_id) tally_id) Hf).
Qed.

Lemma batch_jobs_png_path (input_dir : Path) (output_dir : option Path) (s : State) :
  Forall (λ p, ∃ png, png_path_of input_dir (batch_output_dir input_dir output_dir) p = Ok png)
         (batch_jobs input_dir output_dir s).
Proof.
  unfold batch_jobs. destruct (_ && _); [|by constructor].
  destruct (mkdir_parents_go _ _ _); [by constructor|].
  apply svg_files_in_png_path.
Qed.


(** ** Failures stay inside their job *)



(** ** The view box in the text of a document *)

Lemma append_cons (c : ascii) (s t : string) : String c s +:+ t = String c (s +:+ t).
Proof. reflexivity. Qed.

Lemma append_nil_l (t : string) : "" +:+ t = t.
Proof. reflexivity. Qed.

Lemma strip_prefix_app (p s : string) : strip_prefix p (p +:+ s) = Some s.
Proof.
  induction p as [|a p IH]; [done|].
  rewrite append_cons. simpl. by rewrite decide_True.
Qed.

Lemma span_value_app (v rest : string) (q : ascii) :
  no_quote v → is_quote q = true →
  span_value (v +:+ String q rest) = (v, String q rest).
Proof.
  intros Hv Hq. induction v as [|c v IH].
  - rewrite append_nil_l. simpl. by rewrite Hq.
  - destruct Hv as [Hc Hv]. rewrite append_cons. simpl. rewrite Hc.
    by rewrite (IH Hv).
Qed.

(** The pattern matches where the attribute is written, with either quote
    character on either side. *)
Lemma match_here_attribute (q1 q2 : ascii) (v post : string) :
  is_quote q1 = true → is_quote q2 = true → v ≠ "" → no_quote v →
  match_here ("viewBox=" +:+ String q1 (v +:+ String q2 post)) = Some v.
Proof.
  intros Hq1 Hq2 Hne Hv. unfold match_here.
  rewrite strip_prefix_app, Hq1, (span_value_app _ _ _ Hv Hq2).
  by destruct v.
Qed.

Lemma search_viewBox_unfold (s : string) :
  search_viewBox s =
  match match_here s with
  | Some v => Some v
  | None => match s with "" => None | String _ s' => search_viewBox s' end
  end.
Proof. by destruct s. Qed.

(** [re.search] returns the match at the first position that has one. *)
Lemma search_viewBox_leftmost (pre rest v : string) :
  (∀ pre1 pre2, pre = pre1 +:+ pre2 → pre2 ≠ "" → match_here (pre2 +:+ rest) = None) →
  match_here rest = Some v →
  search_viewBox (pre +:+ rest) = Some v.
Proof.
  intros Hpre Hrest. induction pre as [|c pre IH].
  - rewrite append_nil_l, search_viewBox_unfold. by rewrite Hrest.
  - rewrite search_viewBox_unfold.
    rewrite (Hpre "" (String c pre)) by done.
    rewrite append_cons. apply IH. intros pre1 pre2 -> Hne.
    by apply (Hpre (String c pre1) pre2).
Qed.

(** *** [split] on a value without white space *)

Lemma rev_app_app (s t u : string) :
  String.rev_app (String.rev_app s t) u = String.rev_app t (s +:+ u).
Proof.
  revert t u. induction s as [|c s IH]; intros t u; [done|].
  simpl. rewrite IH. by rewrite append_cons.
Qed.

Lemma append_nil_r (s : string) : s +:+ "" = s.
Proof. induction s as [|c s IH]; [done|]. by rewrite append_cons, IH. Qed.

Lemma rev_app_append (t u s : string) :
  String.rev_app t (u +:+ s) = String.rev_app t u +:+ s.
Proof.
  revert u. induction t as [|c t IH]; intros u; [done|].
  simpl. by rewrite <- IH, append_cons.
Qed.

Lemma rev_rev_app (s t : string) : String.rev (String.rev_app s t) = String.rev t +:+ s.
Proof.
  unfold String.rev. rewrite rev_app_app, append_nil_r.
  by rewrite <- rev_app_append, append_nil_l.
Qed.

Lemma split_go_no_space (cur v : string) :
  no_space v → String.rev_app v cur ≠ "" →
  split_go cur v = [String.rev (String.rev_app v cur)].
Proof.
  revert cur. induction v as [|c v IH]; intros cur Hv Hne; simpl in *.
  - by rewrite decide_False.
  - destruct Hv as [-> Hv]. by apply IH.
Qed.

(** A value without white space is one token, whatever else it holds. *)
Lemma split_no_space (v : string) : v ≠ "" → no_space v → split v = [v].
Proof.
  intros Hne Hv. unfold split.
  assert (String.rev_app v "" ≠ "") as Hne'.
  { destruct v as [|c v]; [done|]. simpl.
    intros H. apply (f_equal String.rev) in H. rewrite rev_rev_app in H.
    by destruct (String.rev v). }
  rewrite split_go_no_space by done.
  by rewrite rev_rev_app.
Qed.

(** Against C10 as stated. The pattern of the code lets a single quote
    close what a double quote opened: here the code takes width 3 and
    height 4 from the first, ill-quoted occurrence, where the first
    well-quoted attribute gives 5 and 6. *)
Lemma search_accepts_mixed_quotes :
  let text := "<svg viewBox=" +:+ Demo.dq +:+ "1 2 3 4' viewBox='0 0 5 6'>" in
  infer_dimensions text = Ok (float_of_Z 3, float_of_Z 4)
  ∧ quoted_dimensions text = Ok (float_of_Z 5, float_of_Z 6)
  ∧ infer_dimensions text ≠ quoted_dimensions text.
Proof. vm_compute. repeat split; congruence. Qed.

(** C10, as amended. The search reads the whole text and takes the first
    place where [viewBox=] is followed by a quote character (double or
    single), a value of one or more characters that are not quote
    characters, and a quote character (double or single, not necessarily
    the one that opened): that value is used, wherever it stands. The value
    is split at white space only, so a value without white space is a single
    token and the dimensions fall back to 750 by 1000. So the view box of a
    comment before the root element is used, and the comma-separated value
    [0,0,200,300] gives 750 by 1000. *)
Theorem view_box_search (pre post v : string) (q1 q2 : ascii) :
  is_quote q1 = true → is_quote q2 = true → v ≠ "" → no_quote v →
  (∀ pre1 pre2, pre = pre1 +:+ pre2 → pre2 ≠ "" →
     match_here (pre2 +:+ "viewBox=" +:+ String q1 (v +:+ String q2 post)) = None) →
  let text := pre +:+ "viewBox=" +:+ String q1 (v +:+ String q2 post) in
  search_viewBox text = Some v
  ∧ (no_space v → infer_dimensions text = Ok (float_of_Z 750, float_of_Z 1000))
  ∧ infer_dimensions "<!-- viewBox='0 0 1 2' --><svg viewBox='0 0 200 300'></svg>"
    = Ok (float_of_Z 1, float_of_Z 2)
  ∧ infer_dimensions ("<svg viewBox=" +:+ Demo.dq +:+ "0,0,200,300" +:+ Demo.dq +:+ "></svg>")
    = Ok (float_of_Z 750, float_of_Z 1000).
Proof.
  intros Hq1 Hq2 Hne Hv Hpre text.
  assert (search_viewBox text = Some v) as Hs.
  { apply search_viewBox_leftmost; [done|]. by apply match_here_attribute. }
  split; [done|]. split; [|split; by vm_compute].
  intros Hsp. unfold infer_dimensions. rewrite Hs.
  by rewrite (split_no_space v Hne Hsp).
Qed.

Lemma view_box_search_witness :
  search_viewBox "<g viewBox='0,0,200,300'/>" = Some "0,0,200,300"
  ∧ infer_dimensions "<g viewBox='0,0,200,300'/>" = Ok (float_of_Z 750, float_of_Z 1000).
Proof.
  assert (∀ pre1 pre2, "<g " = pre1 +:+ pre2 → pre2 ≠ "" →
            match_here (pre2 +:+ "viewBox=" +:+ String "'" ("0,0,200,300" +:+ String "'" "/>"))
            = None) as Hpre.
  { intros pre1 pre2 Hpre Hne.
    destruct pre1 as [|a [|b [|c [|d pre3]]]];
      rewrite ?append_cons, ?append_nil_l in Hpre; simplify_eq; by vm_compute. }
  assert ("0,0,200,300" ≠ "") as Hne by done.
  assert (no_quote "0,0,200,300") as Hnq by (by vm_compute).
  assert (no_space "0,0,200,300") as Hns by (by vm_compute).
  pose proof (view_box_search "<g " "/>" "0,0,200,300" "'" "'"
                eq_refl eq_refl Hne Hnq Hpre) as (H1 & H2 & _).
  exact (conj H1 (H2 Hns)).
Defined.

(** ** The inferred dimensions *)

(** Without a match of the pattern the dimensions are the default ones. *)
Lemma infer_dimensions_absent (text : string) :
  search_viewBox text = None →
  infer_dimensions text = Ok (float_of_Z 750, float_of_Z 1000).
Proof. unfold infer_dimensions. by intros ->. Qed.

(** A value that is not four tokens gives the default dimensions. *)
Lemma infer_dimensions_token_count (text value : string) :
  search_viewBox text = Some value → length (split value) ≠ 4%nat →
  infer_dimensions text = Ok (float_of_Z 750, float_of_Z 1000).
Proof.
  unfold infer_dimensions. intros -> Hlen.
  by destruct (split value) as [|? [|? [|? [|? [|]]]]].
Qed.

(** Four tokens of which the third and the fourth are numbers give those
    two as width and height; the first two tokens are not looked at. *)
Lemma infer_dimensions_four_tokens (text value t0 t1 t2 t3 : string) (w h : float) :
  search_viewBox text = Some value → split value = [t0; t1; t2; t3] →
  float_of_string t2 = Ok w → float_of_string t3 = Ok h →
  infer_dimensions text = Ok (w, h).
Proof. unfold infer_dimensions. by intros -> -> -> ->. Qed.

(** A document without a view box, at scale 1: the viewport is 750 by
    1000. *)
Lemma no_view_box_at_scale_1 :
  let s := Demo.doc_state Demo.one "<svg><rect/></svg>" in
  let '(s', r) := convert_file (of_string "doc.svg") (of_string "doc.png") s in
  r = Ok (true, "")
  ∧ calls (world s')
    = [SetContent "<svg><rect/></svg>" (float_of_Z 750) (float_of_Z 1000);
       WaitForSelector; SetViewportSize 750 1000; QuerySelector; Screenshot "doc.png"].
Proof. by vm_compute. Qed.

(** C2, where the code departs from it. A view box of four tokens whose
    third token is no number is malformed, yet the dimensions do not fall
    back to 750 by 1000: [float] raises [ValueError], the job fails and is
    counted as a failure. And with four tokens of which only the first two
    are no numbers, the last two are used, not the default. *)
Theorem non_numeric_view_box_fails_job :
  let text := "<svg viewBox='0 0 wide tall'></svg>" in
  let run := convert_file (of_string "doc.svg") (of_string "doc.png")
                          (Demo.doc_state Demo.one text) in
  search_viewBox text = Some "0 0 wide tall"
  ∧ split "0 0 wide tall" = ["0"; "0"; "wide"; "tall"]
  ∧ infer_dimensions text
    = Raise (Exception "could not convert string to float: 'wide'")
  ∧ run.2 = Ok (false, "could not convert string to float: 'wide'")
  ∧ fail_count (self run.1) = 1
  ∧ failed_files (self run.1)
    = [("doc.svg", "could not convert string to float: 'wide'")]
  ∧ infer_dimensions "<svg viewBox='a b 200 300'></svg>"
    = Ok (float_of_Z 200, float_of_Z 300).
Proof. by vm_compute. Qed.

(** ** The viewport of a job *)

(** [int(x)] on a finite float truncates toward zero: the magnitude is the
    integer part of the magnitude [m * 2 ^ e], the sign is kept. *)
Lemma int_of_float_truncates (sg : bool) (m : positive) (e n : Z) :
  int_of_float (S754_finite sg m e) = Ok n →
  (if sg then n ≤ 0 else 0 ≤ n)
  ∧ (0 ≤ e → Z.abs n = Zpos m * 2 ^ e)
  ∧ (e < 0 → Z.abs n * 2 ^ (- e) ≤ Zpos m < (Z.abs n + 1) * 2 ^ (- e)).
Proof.
  simpl. intros [= <-].
  assert (0 ≤ Z.shiftl (Z.pos m) e) as Hnn by (by apply Z.shiftl_nonneg).
  split; [destruct sg; simpl; lia|].
  assert (Z.abs (cond_Zopp sg (Z.shiftl (Z.pos m) e)) = Z.shiftl (Z.pos m) e) as ->.
  { destruct sg; simpl; lia. }
  split; intros He.
  - by rewrite Z.shiftl_mul_pow2.
  - rewrite <- (Z.opp_involutive e) at 1 3. rewrite Z.shiftl_opp_r.
    rewrite Z.shiftr_div_pow2 by lia.
    assert (0 < 2 ^ (- e)) as Hpos by (apply Z.pow_pos_nonneg; lia).
    pose proof (Z.mul_div_le (Z.pos m) _ Hpos).
    pose proof (Z.mul_succ_div_gt (Z.pos m) _ Hpos). lia.
Qed.

Lemma bind_ok_inv {A B} (m : M A) (k : A → M B) (s s' : State) (b : B) :
  (m ≫= k) s = (s', Ok b) → ∃ s1 a, m s = (s1, Ok a) ∧ k a s1 = (s', Ok b).
Proof.
  rewrite bind_run. destruct (m s) as [s1 [a|e]]; [|done]. by exists s1, a.
Qed.

Lemma mkdir_parents_ok_inv (p : Path) (s s' : State) (u : unit) :
  mkdir_parents p s = (s', Ok u) →
  ∃ f, mkdir_parents_go (length (parts p)) (fs (world s)) p = inr f
       ∧ s' = {| self := self s; world := set_fs f (world s) |}.
Proof.
  unfold mkdir_parents. destruct (mkdir_parents_go _ _ _) as [e|f]; [done|].
  intros [= <-]. by exists f.
Qed.

Lemma read_text_ok_inv (p : Path) (s s' : State) (t : string) :
  read_text p s = (s', Ok t) → s' = s.
Proof.
  unfold read_text.
  destruct (stat _ _) as [e|[[?|?]|[?|?]|es]]; by intros [= <-].
Qed.

Lemma lift_ok_inv {A} (r : result A) (s s' : State) (a : A) :
  lift r s = (s', Ok a) → s' = s ∧ r = Ok a.
Proof. by intros [= <- ->]. Qed.

Lemma engine_call_ok_inv (c : call) (s s' : State) (u : unit) :
  engine_call c s = (s', Ok u) →
  respond (engine (world s)) (calls (world s)) c = None
  ∧ s' = {| self := self s; world := add_call c (world s) |}.
Proof.
  unfold engine_call. destruct (respond _ _ _); [done|]. by intros [= <-].
Qed.

Lemma page_call_ok_inv (c : call) (s s' : State) (u : unit) :
  page_call c s = (s', Ok u) →
  s' = {| self := self s; world := add_call c (world s) |}.
Proof.
  unfold page_call. intros (s1 & cv & [= <- <-] & H)%bind_ok_inv.
  destruct (page (self s)); [|done]. by apply engine_call_ok_inv in H as [_ ->].
Qed.

Lemma write_bytes_ok_inv (p : Path) (b : string) (s s' : State) (u : unit) :
  write_bytes p b s = (s', Ok u) →
  ∃ f, s' = {| self := self s; world := set_fs f (world s) |}.
Proof.
  unfold write_bytes. destruct (write_file _ _ _) as [e|f]; [done|].
  intros [= <-]. by exists f.
Qed.

(** A job that succeeds made these five calls on the engine, in this
    order, with the text of the source file, the dimensions inferred from
    it and their products with the scale, each cut to an integer by
    [int]. *)
Lemma convert_file_success_inv (svg_path png_path : Path) (s s' : State) (msg : string) :
  convert_file svg_path png_path s = (s', Ok (true, msg)) →
  ∃ s1 text w h vw vh,
    read_text svg_path s1 = (s1, Ok text)
    ∧ infer_dimensions text = Ok (w, h)
    ∧ int_of_float (fmul w (scale (self s))) = Ok vw
    ∧ int_of_float (fmul h (scale (self s))) = Ok vh
    ∧ calls (world s')
      = calls (world s) ++ [SetContent text w h; WaitForSelector;
                            SetViewportSize vw vh; QuerySelector;
                            Screenshot (to_string png_path)].
Proof.
  unfold convert_file, try_except.
  destruct (convert_file_try svg_path png_path s) as [s0 [r|[m|code]]] eqn:Htry;
    [|done..].
  intros [= -> ->]. unfold convert_file_try in Htry.
  apply bind_ok_inv in Htry as (s1 & [] & (f1 & Hmk & ->)%mkdir_parents_ok_inv & Htry).
  apply bind_ok_inv in Htry as (s2 & text & Hread & Htry).
  pose proof (read_text_ok_inv _ _ _ _ Hread) as ->.
  apply bind_ok_inv in Htry as (s3 & [w h] & [-> Hdim]%lift_ok_inv & Htry).
  apply bind_ok_inv in Htry as (s4 & [] & ->%page_call_ok_inv & Htry).
  apply bind_ok_inv in Htry as (s5 & [] & ->%page_call_ok_inv & Htry).
  apply bind_ok_inv in Htry as (s6 & cv & [= <- <-] & Htry).
  apply bind_ok_inv in Htry as (s7 & vw & [-> Hvw]%lift_ok_inv & Htry).
  apply bind_ok_inv in Htry as (s8 & vh & [-> Hvh]%lift_ok_inv & Htry).
  apply bind_ok_inv in Htry as (s9 & [] & ->%page_call_ok_inv & Htry).
  apply bind_ok_inv in Htry as (s10 & [] & ->%page_call_ok_inv & Htry).
  apply bind_ok_inv in Htry as (s11 & w0 & [= <- <-] & Htry).
  apply bind_ok_inv in Htry as (s12 & [] & Hshot & Htry).
  destruct (finds_svg _ _); [|done].
  apply bind_ok_inv in Hshot as (s13 & [] & [_ ->]%engine_call_ok_inv & Hshot).
  apply bind_ok_inv in Hshot as (s14 & w1 & [= <- <-] & Hshot).
  apply write_bytes_ok_inv in Hshot as (f2 & ->).
  injection Htry as <- _.
  eexists _, text, w, h, vw, vh. repeat (split; [eassumption|]).
  simpl. by rewrite <- !app_assoc.
Qed.

Example quarter_is_a_quarter : parse_float "0.25" = Some Demo.quarter.
Proof. by vm_compute. Qed.




(** ** The engine over a run of [main] *)

Lemma engine_call_lifecycle (c : call) (s : State) :
  lifecycle_ok (engine (world s)) → job_call c = false →
  engine_call c s = ({| self := self s; world := add_call c (world s) |}, Ok tt).
Proof. intros HE Hc. unfold engine_call. by rewrite (HE _ _ Hc). Qed.

Lemma enter_run (s : State) :
  lifecycle_ok (engine (world s)) → __enter__ s = (entered s, Ok tt).
Proof.
  intros HE. unfold __enter__.
  rewrite bind_run, engine_call_lifecycle by done.
  rewrite bind_run. unfold modify_self at 1. cbv beta iota.
  rewrite bind_run, engine_call_lifecycle by done.
  rewrite bind_run. unfold modify_self at 1. cbv beta iota.
  rewrite bind_run, engine_call_lifecycle by done.
  reflexivity.
Qed.

Lemma exit_run (s : State) :
  lifecycle_ok (engine (world s)) →
  playwright (self s) = true → browser (self s) = true → page (self s) = true →
  __exit__ s = (exited s, Ok tt).
Proof.
  intros HE Hpw Hbr Hpg. unfold __exit__.
  rewrite bind_run. unfold get_self at 1. cbv beta iota. rewrite Hpg, Hbr, Hpw.
  rewrite bind_run, engine_call_lifecycle by done.
  rewrite bind_run, engine_call_lifecycle by done.
  by rewrite engine_call_lifecycle.
Qed.

(** The [with] statement around a block that makes only calls of jobs and
    keeps the handles: the engine is started before the block and stopped
    after it, however the block ends. *)
Lemma with_run {A} (body : M A) (s s1 : State) (r : result A)
    (f : Converter → Converter) (ls : list line) (n : nat) :
  lifecycle_ok (engine (world s)) →
  body (entered s) = (s1, r) → evolves f ls (entered s) s1 → tally n f →
  with_ body s = (exited s1, r).
Proof.
  intros HE Hbody Hev Hf. unfold with_. rewrite bind_run, enter_run by done.
  unfold then_exit. rewrite Hbody. rewrite exit_run; [done|..].
  - by rewrite (ev_engine _ _ _ _ Hev).
  - rewrite (ev_self _ _ _ _ Hev). by destruct (tally_rest _ _ Hf (self (entered s))) as (_&_&->&_&_).
  - rewrite (ev_self _ _ _ _ Hev). by destruct (tally_rest _ _ Hf (self (entered s))) as (_&_&_&->&_).
  - rewrite (ev_self _ _ _ _ Hev). by destruct (tally_rest _ _ Hf (self (entered s))) as (_&_&_&_&->).
Qed.

(** *** The block of the [with] statement *)

Lemma name_suffix_empty : name_suffix "" = "".
Proof. reflexivity. Qed.

Lemma convert_single_run (svg_path : Path) (png_path : option Path) (s : State) :
  ∃ s' b f ls n,
    convert_single svg_path png_path s = (s', Ok b)
    ∧ evolves f ls s s' ∧ tally n f.
Proof.
  unfold convert_single. rewrite bind_run. unfold get_world at 1. cbv beta iota.
  destruct (exists_ _ _); cbn [negb].
  2:{ eexists _, false, id, [_], 0%nat. rewrite bind_run, print_run.
      split; [done|]. split; [apply evolves_print | apply tally_id]. }
  destruct (bool_decide (lower_string (suffix svg_path) = ".svg")) eqn:Hsfx;
    cbn [negb].
  2:{ eexists _, false, id, [_], 0%nat. rewrite bind_run, print_run.
      split; [done|]. split; [apply evolves_print | apply tally_id]. }
  apply bool_decide_eq_true in Hsfx.
  assert (∃ png, match png_path with
                 | None => lift (with_suffix svg_path ".png")
                 | Some p => mret p
                 end s = (s, Ok png)) as [png Hpng].
  { destruct png_path as [p|]; [by exists p|].
    unfold with_suffix. destruct (decide (name svg_path = "")) as [Hn|]; [|by eexists].
    unfold suffix in Hsfx. by rewrite Hn in Hsfx. }
  rewrite bind_run, Hpng. rewrite bind_run, print_run. rewrite bind_run.
  set (s1 := {| self := self s; world := add_line _ (world s) |}).
  pose proof (evolves_print (Converting (name svg_path)) s) as H1. fold s1 in H1.
  destruct (convert_file_outcome svg_path png s1) as (s2 & b & msg & -> & H2).
  destruct b.
  - destruct H2 as [-> H2]. rewrite bind_run, print_run.
    eexists _, true, _, _, _. split; [done|]. split.
    + eapply evolves_trans; [|apply evolves_print].
      eapply evolves_trans; [exact H1 | exact H2].
    + apply (tally_compose _ 0 _ _ (tally_compose 0 1 _ _ tally_id tally_count_success) tally_id).
  - rewrite bind_run, print_run.
    eexists _, false, _, _, _. split; [done|]. split.
    + eapply evolves_trans; [|apply evolves_print].
      eapply evolves_trans; [exact H1 | exact H2].
    + apply (tally_compose _ 0 _ _
               (tally_compose 0 1 _ _ tally_id (tally_count_failure _ _)) tally_id).
Qed.

Lemma print_entries_run (i : nat) (entries : list (string * string)) (s : State) :
  ∃ s' ls,
    for_enumerate i entries (λ _ '(filename, error), print (FailedEntry filename error)) s
    = (s', Ok tt)
    ∧ evolves id ls s s'.
Proof.
  revert i s. induction entries as [|[filename error] entries IH]; intros i s.
  - exists s, []. split; [done | apply evolves_refl].
  - simpl. rewrite bind_run, print_run.
    destruct (IH (S i) {| self := self s; world := add_line (FailedEntry filename error) (world s) |})
      as (s' & ls & -> & Hev).
    eexists s', _. split; [done|].
    apply (evolves_trans id id _ _ _ _ _ (evolves_print _ s) Hev).
Qed.

Lemma print_summary_run (s : State) :
  ∃ s' ls, print_summary s = (s', Ok tt) ∧ evolves id ls s s'.
Proof.
  unfold print_summary. rewrite bind_run. unfold get_self at 1. cbv beta iota.
  do 5 (rewrite bind_run, print_run; cbv beta iota).
  set (s1 := {| self := _; world := add_line Rule _ |}).
  assert (evolves id [Blank; Rule; SummarySuccess (success_count (self s));
                      SummaryFail (fail_count (self s)); Rule] s s1) as H1.
  { split; simpl; try done; [by rewrite <- !app_assoc|].
    exists []. by rewrite app_nil_r. }
  destruct (failed_files (self s)) as [|entry entries].
  - eexists s1, _. split; [done | exact H1].
  - do 2 (rewrite bind_run, print_run; cbv beta iota).
    set (s2 := {| self := _; world := add_line FailedHeader _ |}).
    assert (evolves id [Blank; FailedHeader] s1 s2) as H2.
    { split; simpl; try done; [by rewrite <- !app_assoc|].
      exists []. by rewrite app_nil_r. }
    destruct (print_entries_run 0 (entry :: entries) s2) as (s3 & ls & -> & H3).
    eexists s3, _. split; [done|].
    apply (evolves_trans id id _ _ _ _ _ (evolves_trans id id _ _ _ _ _ H1 H2) H3).
Qed.

Lemma summary_run (s : State) :
  ∃ s' ls,
    (cv ← get_self;
     if bool_decide (success_count cv > 0 ∨ fail_count cv > 0) then print_summary
     else mret tt) s = (s', Ok tt)
    ∧ evolves id ls s s'.
Proof.
  rewrite bind_run. unfold get_self at 1. cbv beta iota.
  destruct (bool_decide _).
  - apply print_summary_run.
  - exists s, []. split; [done | apply evolves_refl].
Qed.

Lemma main_dispatch_run (input_path : Path) (output_path : option Path) (s : State) :
  ∃ s' f ls n,
    main_dispatch input_path output_path s = (s', dispatch_result input_path output_path s)
    ∧ evolves f ls s s' ∧ tally n f.
Proof.
  unfold main_dispatch, dispatch_result.
  rewrite bind_run. unfold get_world at 1. cbv beta iota.
  destruct (is_file (fs (world s)) input_path).
  - rewrite bind_run, bind_run.
    destruct (convert_single_run input_path output_path s) as (s1 & b & f & ls & n & -> & H1 & Hf).
    cbv beta iota. rewrite ret_run.
    destruct (summary_run s1) as (s2 & ls2 & -> & H2).
    eexists s2, _, _, _. split; [done|]. split.
    + exact (evolves_trans _ _ _ _ _ _ _ H1 H2).
    + apply (tally_compose n 0 _ _ Hf tally_id).
  - destruct (is_dir (fs (world s)) input_path).
    + rewrite bind_run.
      destruct (convert_batch_run input_path output_path s) as (s1 & f & ls & -> & H1 & Hf).
      destruct (batch_result input_path output_path s) as [[]|e].
      * destruct (summary_run s1) as (s2 & ls2 & -> & H2).
        eexists s2, _, _, _. split; [done|]. split.
        -- exact (evolves_trans _ _ _ _ _ _ _ H1 H2).
        -- apply (tally_compose _ 0 _ _ Hf tally_id).
      * by eexists s1, _, _, _.
    + rewrite bind_run, bind_run, print_run. cbv beta iota.
      eexists _, id, [_], 0%nat. split; [done|].
      split; [apply evolves_print | apply tally_id].
Qed.

(** *** The whole run *)

Lemma main_run (args : Args) (w : World) :
  lifecycle_ok (engine w) →
  ∃ s' cs,
    main args w = (s', main_result args w)
    ∧ calls (world s')
      = calls w ++ [Start; Launch; NewPage] ++ cs ++ [ClosePage; CloseBrowser; Stop]
    ∧ Forall (λ c, job_call c = true) cs.
Proof.
  intros HE. unfold main, main_body, main_result.
  do 3 (rewrite bind_run, print_run; cbv beta iota).
  cbn [self world]. fold (main_start args w). set (s0 := main_start args w).
  destruct (main_dispatch_run (input_of args) (output_of args) (entered s0))
    as (s1 & f & ls & n & Hrun & Hev & Hf).
  assert (dispatch_result (input_of args) (output_of args) (entered s0)
          = dispatch_result (input_of args) (output_of args) s0) as Hres by done.
  rewrite Hres in Hrun.
  rewrite bind_run, (with_run _ s0 s1 _ f ls n HE Hrun Hev Hf).
  destruct (ev_calls _ _ _ _ Hev) as (cs & Hcs & Hjob).
  assert (calls (world (exited s1))
          = calls w ++ [Start; Launch; NewPage] ++ cs ++ [ClosePage; CloseBrowser; Stop])
    as Hcalls.
  { simpl. rewrite Hcs. simpl. by rewrite <- !app_assoc. }
  destruct (dispatch_result _ _ s0) as [[]|e].
  - rewrite bind_run, print_run. cbv beta iota. rewrite print_run.
    eexists _, cs. split; [done|]. by split.
  - eexists _, cs. split; [done|]. by split.
Qed.

(** On a path that is neither a regular file nor a directory the run ends
    with exit status 1 and the file system as it was, whatever the engine
    does. *)
Lemma main_missing (args : Args) (w : World) :
  is_file (fs w) (input_of args) = false → is_dir (fs w) (input_of args) = false →
  exit_code (main args w).2 = 1 ∧ fs (world (main args w).1) = fs w.
Proof.
  intros Hfile Hdir.
  unfold main, main_body, with_, then_exit, __enter__, __exit__, main_dispatch,
    engine_call, print, modify_self, modify_world, get_self, get_world, raise,
    mbind, M_bind, mret, M_ret.
  cbn. repeat (destruct (respond _ _ _); cbn; try done).
  all: rewrite ?Hfile, ?Hdir; cbn; repeat (destruct (respond _ _ _); cbn; try done).
Qed.

Lemma is_file_exists (f : FileSystem) (p : Path) : is_file f p = true → exists_ f p = true.
Proof. unfold is_file, exists_. by destruct (stat f p). Qed.

Lemma is_dir_exists (f : FileSystem) (p : Path) : is_dir f p = true → exists_ f p = true.
Proof. unfold is_dir, exists_. by destruct (stat f p). Qed.

Lemma missing_is_neither (f : FileSystem) (p : Path) :
  exists_ f p = false → is_file f p = false ∧ is_dir f p = false.
Proof. unfold is_file, is_dir, exists_. by destruct (stat f p). Qed.

(** ** Single-file mode on a file that is no SVG file *)




(** ** The exit status *)




(** ** The life of the engine *)



(** ** Destinations of a batch *)

Lemma length_append (s t : string) :
  String.length (s +:+ t) = (String.length s + String.length t)%nat.
Proof. induction s as [|c s IH]; [done|]. rewrite append_cons. simpl. by rewrite IH. Qed.

Lemma substring_full (s : string) : String.substring 0 (String.length s) s = s.
Proof. induction s as [|c s IH]; [done|]. simpl. by rewrite IH. Qed.

Lemma substring_split (s : string) (n : nat) :
  (n ≤ String.length s)%nat →
  String.substring 0 n s +:+ String.substring n (String.length s - n) s = s.
Proof.
  revert n. induction s as [|c s IH]; intros n Hn; simpl in Hn.
  - by replace n with 0%nat by lia.
  - destruct n as [|n].
    + change (String.substring 0 0 (String c s)) with "".
      rewrite append_nil_l, Nat.sub_0_r. apply substring_full.
    + simpl. rewrite append_cons. rewrite IH by lia. done.
Qed.

Lemma substring_take_app (s t : string) :
  String.substring 0 (String.length s) (s +:+ t) = s.
Proof.
  induction s as [|c s IH]; [by destruct t|].
  rewrite append_cons. simpl. by rewrite IH.
Qed.

Lemma substring_drop_app (s t : string) (m : nat) :
  String.substring (String.length s) m (s +:+ t) = String.substring 0 m t.
Proof. induction s as [|c s IH]; [done|]. by rewrite append_cons. Qed.

(** A name that matches the pattern is a stem followed by [.svg]. *)
Lemma fnmatch_svg_stem (x : string) : fnmatch_svg x = true → ∃ stem, x = stem +:+ ".svg".
Proof.
  unfold fnmatch_svg. intros [Hlen Hsfx]%bool_decide_eq_true.
  exists (String.substring 0 (String.length x - 4) x).
  rewrite <- Hsfx.
  replace 4%nat with (String.length x - (String.length x - 4))%nat at 3 by lia.
  symmetry. apply substring_split. lia.
Qed.

Lemma rfind_dot_svg (stem : string) :
  rfind "." (stem +:+ ".svg") = Some (String.length stem).
Proof.
  induction stem as [|c stem IH]; [done|].
  rewrite append_cons. simpl. by rewrite IH.
Qed.

(** [with_suffix] on a name with a stem: [.svg] becomes [.png]. *)
Lemma name_with_suffix_svg (stem : string) :
  stem ≠ "" → name_with_suffix (stem +:+ ".svg") ".png" = stem +:+ ".png".
Proof.
  intros Hne. unfold name_with_suffix, name_suffix.
  rewrite rfind_dot_svg, length_append. simpl String.length.
  rewrite decide_True by (destruct stem; [done | simpl; lia]).
  replace (String.length stem + 4 - String.length stem)%nat with 4%nat by lia.
  rewrite substring_drop_app. simpl String.length.
  replace (String.length stem + 4 - 4)%nat with (String.length stem) by lia.
  by rewrite substring_take_app.
Qed.

(** A file that is named just [.svg] has no suffix for pathlib: the new
    suffix is appended. *)
Lemma name_with_suffix_dot_svg : name_with_suffix ".svg" ".png" = ".svg.png".
Proof. reflexivity. Qed.

(** *** The default output directory *)

Lemma canon_app (root : node) (loc ps1 ps2 : list string) :
  canon root loc (ps1 ++ ps2)
  = match canon root loc ps1 with
    | inr loc' => canon root loc' ps2
    | inl e => inl e
    end.
Proof.
  revert loc. induction ps1 as [|p ps1 IH]; intros loc; [done|].
  simpl. by destruct (walk root loc) as [[| |]|].
Qed.

Lemma canon_name (root : node) (d : list string) (x : string) (loc : list string) :
  canon root d [x] = inr loc → x ≠ ".." →
  loc = d ++ [x] ∧ ∀ y, y ≠ ".." → canon root d [y] = inr (d ++ [y]).
Proof.
  simpl. destruct (walk root d) as [[| |]|]; try done.
  intros [= <-] Hx. rewrite decide_False by done. split; [done|].
  intros y Hy. by rewrite decide_False.
Qed.

(** Against C7 as stated. With the input [.] the default output directory
    is [png_output] in the working directory: an entry of the input
    directory itself, and no sibling of it. *)
Lemma default_output_inside_input :
  let input_dir := of_string "." in
  let output_dir := batch_output_dir input_dir None in
  is_dir (fs Demo.world0) input_dir = true
  ∧ output_dir = of_string "png_output"
  ∧ locate (fs Demo.world0) input_dir = inr ["proj"]
  ∧ locate (fs Demo.world0) output_dir = inr (["proj"] ++ ["png_output"])
  ∧ ¬ sibling (fs Demo.world0) output_dir input_dir.
Proof.
  repeat split; try (by vm_compute).
  intros (d & x & y & Hout & Hin & Hxy).
  assert (locate (fs Demo.world0) (of_string ".") = inr ["proj"]) as Ein
    by (by vm_compute).
  assert (locate (fs Demo.world0) (batch_output_dir (of_string ".") None)
          = inr ["proj"; "png_output"]) as Eout by (by vm_compute).
  rewrite Ein in Hin. rewrite Eout in Hout.
  destruct d as [|a [|b [|c d]]]; simplify_eq/=.
Qed.

(** When the input path ends in a name, the default output directory is
    the entry [png_output] of the directory that holds the input
    directory. *)
Lemma default_output_sibling (f : FileSystem) (input_dir : Path) (init : list string) (x : string) :
  parts input_dir = init ++ [x] → x ≠ ".." → x ≠ "png_output" →
  is_dir f input_dir = true →
  sibling f (batch_output_dir input_dir None) input_dir.
Proof.
  intros Hparts Hx Hx' Hdir.
  unfold is_dir, stat in Hdir.
  destruct (locate f input_dir) as [e|loc] eqn:Hloc; [done|].
  unfold locate in Hloc. rewrite Hparts, canon_app in Hloc.
  destruct (canon (root f) _ init) as [e|d] eqn:Hinit; [done|].
  destruct (canon_name _ _ _ _ Hloc Hx) as [-> Hany].
  exists d, "png_output", x. split; [|split; [|done]].
  - unfold locate, batch_output_dir, joinpath, parent. simpl.
    rewrite Hparts, List.removelast_last, canon_app, Hinit.
    by apply Hany.
  - unfold locate. by rewrite Hparts, canon_app, Hinit.
Qed.

(** C7, as amended. In a batch, every enumerated source file lies below
    the input directory, under some directories and a name [stem.svg]; its
    destination is the output directory joined with the same directories
    and the name [stem.png] (for the name [.svg], which has no suffix for
    pathlib, the name [.svg.png]). Without an output directory the output
    directory is [png_output] joined to the lexical parent of the input
    path; when the input path ends in a name other than [..] and
    [png_output], that is a sibling of the input directory. *)
Theorem batch_destinations (rec : bool) (f : FileSystem) (input_dir output_dir p : Path) :
  p ∈ svg_files_in rec f input_dir →
  (∃ dirs stem,
     p = joinpath input_dir (mkPath false (dirs ++ [stem +:+ ".svg"]))
     ∧ png_path_of input_dir output_dir p
       = Ok (joinpath output_dir
               (mkPath false (dirs ++ [if decide (stem = "") then ".svg.png"
                                       else stem +:+ ".png"]))))
  ∧ batch_output_dir input_dir (Some output_dir) = output_dir
  ∧ batch_output_dir input_dir None = joinpath (parent input_dir) (of_string "png_output")
  ∧ (∀ init x, parts input_dir = init ++ [x] → x ≠ ".." → x ≠ "png_output" →
       is_dir f input_dir = true →
       sibling f (batch_output_dir input_dir None) input_dir).
Proof.
  intros (dirs & x & Hx & ->)%svg_files_in_shape.
  split; [|split; [done|split; [done|]]].
  - destruct (fnmatch_svg_stem x Hx) as [stem ->]. exists dirs, stem.
    split; [done|].
    rewrite png_path_of_enumerated by (by apply fnmatch_svg_nonempty).
    destruct (decide (stem = "")) as [->|Hne]; [done|].
    by rewrite name_with_suffix_svg.
  - intros init y. apply default_output_sibling.
Qed.

Lemma batch_destinations_witness :
  let input_dir := of_string "svgs" in
  let output_dir := batch_output_dir input_dir None in
  let p := of_string "svgs/sub/c.svg" in
  p ∈ svg_files_in true (fs Demo.world0) input_dir
  ∧ png_path_of input_dir output_dir p = Ok (of_string "png_output/sub/c.png")
  ∧ (∃ dirs stem,
       p = joinpath input_dir (mkPath false (dirs ++ [stem +:+ ".svg"]))
       ∧ png_path_of input_dir output_dir p
         = Ok (joinpath output_dir
                 (mkPath false (dirs ++ [if decide (stem = "") then ".svg.png"
                                         else stem +:+ ".png"]))))
  ∧ sibling (fs Demo.world0) output_dir input_dir.
Proof.
  intros input_dir output_dir p.
  assert (p ∈ svg_files_in true (fs Demo.world0) input_dir) as Hp.
  { apply list_elem_of_In. vm_compute. auto. }
  split; [exact Hp|]. split; [by vm_compute|].
  destruct (batch_destinations true (fs Demo.world0) input_dir output_dir p Hp)
    as (Hdst & _ & _ & Hsib).
  split; [exact Hdst|].
  apply (Hsib [] "svgs"); by vm_compute.
Defined.

(** ** The order of the enumeration *)

Global Instance list_le_total : Total list_le.
Proof.
  intros l1. induction l1 as [|x l1 IH]; intros [|y l2]; simpl; auto.
  repeat case_decide; subst; try done. apply String.le_total.
Qed.

Global Instance list_le_trans : Transitive list_le.
Proof.
  intros l1. induction l1 as [|x l1 IH]; intros [|y l2] [|z l3]; simpl; try done.
  repeat case_decide; subst; try done.
  - apply IH.
  - intros Hle1 Hle2. by destruct (anti_symm String.le _ _ Hle1 Hle2).
  - intros Hle1 Hle2. by trans y.
Qed.

Lemma list_le_antisym (l1 l2 : list string) : list_le l1 l2 → list_le l2 l1 → l1 = l2.
Proof.
  revert l2. induction l1 as [|x l1 IH]; intros [|y l2]; simpl; try done.
  repeat case_decide; subst; try done.
  - intros H1 H2. f_equal. by apply IH.
  - intros H1 H2. by destruct (anti_symm String.le _ _ H1 H2).
Qed.

Global Instance path_le_total : Total path_le.
Proof. intros p q. apply list_le_total. Qed.

Global Instance path_le_trans : Transitive path_le.
Proof. intros p q r. apply list_le_trans. Qed.

(** Among paths with one anchor the order is antisymmetric. *)
Lemma path_le_antisym (p q : Path) :
  anchor p = anchor q → path_le p q → path_le q p → p = q.
Proof.
  unfold path_le, cparts. destruct p as [a ps], q as [b qs]. simpl. intros <- H1 H2.
  f_equal. pose proof (list_le_antisym _ _ H1 H2) as H. by simplify_list_eq.
Qed.

(** [sorted] gives an ordered arrangement of its argument. *)
Lemma sorted_sorted (ps : list Path) : StronglySorted path_le (sorted ps).
Proof. apply StronglySorted_merge_sort; apply _. Qed.

Lemma sorted_permutation (ps : list Path) : sorted ps ≡ₚ ps.
Proof. apply merge_sort_Permutation. Qed.

(** Among paths with one anchor the result of [sorted] does not depend on
    the order of its argument: two listings of the same entries, in any
    two orders, are sorted to the same sequence. *)
Lemma sorted_order_irrelevant (a : bool) (ps qs : list Path) :
  Forall (λ p, anchor p = a) ps → ps ≡ₚ qs → sorted ps = sorted qs.
Proof.
  intros Hps Hperm. apply (StronglySorted_unique_strong path_le).
  - intros p q Hp Hq. apply path_le_antisym.
    rewrite sorted_permutation in Hp. rewrite sorted_permutation, <- Hperm in Hq.
    rewrite Forall_forall in Hps. by rewrite (Hps p Hp), (Hps q Hq).
  - apply sorted_sorted.
  - apply sorted_sorted.
  - by rewrite !sorted_permutation.
Qed.

(** The enumeration is ordered, and it holds what [glob] or [rglob] found,
    each path as often as found. *)
Lemma svg_files_in_sorted (rec : bool) (f : FileSystem) (directory : Path) :
  StronglySorted path_le (svg_files_in rec f directory)
  ∧ svg_files_in rec f directory
    ≡ₚ (if rec then rglob f directory else glob f directory).
Proof. split; [apply sorted_sorted | apply sorted_permutation]. Qed.

(** *** What the patterns find *)

(** [rglob] finds the entries at every depth whose name matches: regular
    files, special files and directories alike. *)
Lemma rglob_node_spec (n : node) (rel : list string) :
  rel ∈ rglob_node n
  ↔ ∃ dirs x, rel = dirs ++ [x] ∧ fnmatch_svg x = true ∧ below n rel.
Proof.
  revert rel. induction n as [c|c|es IH] using node_ind; intros rel; simpl.
  - rewrite elem_of_nil. split; [done|]. by intros ([|d dirs] & x & -> & _ & H).
  - rewrite elem_of_nil. split; [done|]. by intros ([|d dirs] & x & -> & _ & H).
  - induction es as [|[y c] es IHes].
    + rewrite elem_of_nil. split; [done|].
      intros ([|d dirs] & x & -> & _ & (c & Hc%elem_of_nil & _)); done.
    + inversion_clear IH as [|?? Hc Hes]. specialize (IHes Hes). simpl in Hc.
      rewrite !elem_of_app, IHes, list_elem_of_fmap. split.
      * intros [H|[(rel' & -> & H)|(dirs & x & -> & Hx & H)]].
        -- destruct (fnmatch_svg y) eqn:Hy; [|by apply elem_of_nil in H].
           apply list_elem_of_singleton in H as ->. exists [], y.
           split; [done|]. split; [done|]. exists c. split; [left|done].
        -- apply Hc in H as (dirs & x & -> & Hx & H). exists (y :: dirs), x.
           split; [done|]. split; [done|]. exists c. split; [left|done].
        -- exists dirs, x. split; [done|]. split; [done|].
           destruct dirs as [|d dirs]; simpl in *;
             destruct H as (c' & Hc' & H); exists c'; (split; [by right|done]).
      * intros (dirs & x & -> & Hx & H).
        destruct dirs as [|d dirs]; simpl in H; destruct H as (c' & Hc' & H);
          apply elem_of_cons in Hc' as [[= <- <-]|Hc'].
        -- left. rewrite Hx. by left.
        -- right. right. exists [], x. split; [done|]. split; [done|]. by exists c'.
        -- right. left. exists (dirs ++ [x]). split; [done|]. apply Hc. by exists dirs, x.
        -- right. right. exists (d :: dirs), x. split; [done|]. split; [done|]. by exists c'.
Qed.

(** [glob] finds the entries of the directory itself whose name matches. *)
Lemma glob_node_spec (n : node) (rel : list string) :
  rel ∈ glob_node n ↔ ∃ x, rel = [x] ∧ fnmatch_svg x = true ∧ below n rel.
Proof.
  destruct n as [c|c|es]; simpl.
  - rewrite elem_of_nil. split; [done|]. by intros (x & -> & _ & H).
  - rewrite elem_of_nil. split; [done|]. by intros (x & -> & _ & H).
  - rewrite list_elem_of_fmap. split.
    + intros ([x c] & -> & [Hx Hin]%list_elem_of_filter). exists x.
      split; [done|]. split; [done|]. by exists c.
    + intros (x & -> & Hx & (c & Hin & _)). exists (x, c).
      split; [done|]. by apply list_elem_of_filter.
Qed.

(** Without the flag nothing below a subdirectory is returned; with it,
    everything that [glob] returns and the matches at every depth. *)
Lemma glob_subset_rglob (n : node) (rel : list string) :
  rel ∈ glob_node n → rel ∈ rglob_node n.
Proof.
  rewrite glob_node_spec, rglob_node_spec. intros (x & -> & Hx & H). by exists [], x.
Qed.

(** ** A directory whose name ends in [.svg] *)

(** C8, where the code departs from it. [get_svg_files] returns the
    directory [icons.svg] among the SVG files, with and without the
    recursion flag: the patterns select by name and no entry is tested for
    being a file. The job on it then fails on reading. *)
Theorem get_svg_files_returns_directory :
  let input_dir := of_string "." in
  let found := of_string "icons.svg" in
  is_dir DemoDir.files found = true
  ∧ is_file DemoDir.files found = false
  ∧ svg_files_in false DemoDir.files input_dir = [of_string "a.svg"; found]
  ∧ svg_files_in true DemoDir.files input_dir = [of_string "a.svg"; found]
  ∧ (get_svg_files input_dir DemoDir.state).2 = Ok [of_string "a.svg"; found]
  ∧ (convert_file found (of_string "png_output/icons.png") DemoDir.state).2
    = Ok (false, "[Errno 21] Is a directory: 'icons.svg'").
Proof. by vm_compute. Qed.

(** * Further properties of the program *)

(** ** Putting a node into the tree *)

Lemma lookup_alter_eq (f : option node → node) (x : string) (es : list (string * node)) :
  lookup_entry (alter_entry f x es) x = Some (f (lookup_entry es x)).
Proof.
  induction es as [|[y c] es IH]; simpl.
  - by rewrite decide_True.
  - destruct (decide (y = x)) as [->|Hne]; simpl.
    + by rewrite decide_True.
    + by rewrite decide_False.
Qed.

Lemma lookup_alter_ne (f : option node → node) (x y : string) (es : list (string * node)) :
  y ≠ x → lookup_entry (alter_entry f x es) y = lookup_entry es y.
Proof.
  intros Hne. induction es as [|[z c] es IH]; simpl.
  - by rewrite decide_False.
  - destruct (decide (z = x)) as [->|Hzx]; simpl.
    + by rewrite !decide_False.
    + destruct (decide (z = y)); [done | apply IH].
Qed.

(** A node put as an entry of an existing directory is found there. *)
Lemma walk_put_child (n new : node) (d : list string) (x : string) (es : list (string * node)) :
  walk n d = Some (Dir es) → walk (put n (d ++ [x]) new) (d ++ [x]) = Some new.
Proof.
  revert n. induction d as [|y d IH]; intros n; simpl.
  - intros [= ->]. by rewrite lookup_alter_eq.
  - destruct n as [c|c|es0]; try done.
    destruct (lookup_entry es0 y) as [c|] eqn:Hy; [|done].
    intros Hc. simpl. rewrite lookup_alter_eq, Hy. simpl. by apply IH.
Qed.

(** Putting a node where no directory is keeps every directory a
    directory. *)
Lemma walk_put_dir (n new : node) (loc l : list string) (es : list (string * node)) :
  (∀ es', walk n loc ≠ Some (Dir es')) →
  walk n l = Some (Dir es) → ∃ es', walk (put n loc new) l = Some (Dir es').
Proof.
  revert n l es. induction loc as [|x loc IH]; intros n l es Hloc Hl.
  - simpl in Hloc. destruct l as [|y l]; simpl in Hl.
    + injection Hl as ->. by destruct (Hloc es).
    + destruct n as [c|c|es0]; try done. by destruct (Hloc es0).
  - destruct n as [c|c|es0]; try by eexists.
    simpl. destruct l as [|y l]; [by eexists|].
    simpl in Hl. simpl. destruct (decide (y = x)) as [->|Hne].
    + rewrite lookup_alter_eq.
      destruct (lookup_entry es0 x) as [c|] eqn:Hx; [|done]. simpl.
      apply (IH c l es); [|done]. intros es' H. apply (Hloc es'). simpl. by rewrite Hx.
    + rewrite lookup_alter_ne by done.
      destruct (lookup_entry es0 y) as [c|]; [|done]. by eexists.
Qed.

(** It keeps every regular file at another location as it is. *)
Lemma walk_put_file (n new : node) (loc l : list string) (c : data) :
  (∀ es', walk n loc ≠ Some (Dir es')) →
  walk n l = Some (File c) → l ≠ loc → walk (put n loc new) l = Some (File c).
Proof.
  revert n l. induction loc as [|x loc IH]; intros n l Hloc Hl Hne.
  - simpl in Hloc. destruct l as [|y l]; [done|]. simpl in Hl.
    destruct n as [c0|c0|es0]; try done. by destruct (Hloc es0).
  - destruct n as [c0|c0|es0]; try done.
    simpl. destruct l as [|y l]; [done|].
    simpl in Hl. simpl. destruct (decide (y = x)) as [->|Hyx].
    + rewrite lookup_alter_eq.
      destruct (lookup_entry es0 x) as [c1|] eqn:Hx; [|done]. simpl.
      apply IH; [|done|congruence].
      intros es' H. apply (Hloc es'). simpl. by rewrite Hx.
    + by rewrite lookup_alter_ne.
Qed.

(** Resolution of a path that succeeded still succeeds, with the same
    result, in a tree that kept its directories. *)
Lemma canon_kept (n n' : node) (l0 ps loc : list string) :
  (∀ l es, walk n l = Some (Dir es) → ∃ es', walk n' l = Some (Dir es')) →
  canon n l0 ps = inr loc → canon n' l0 ps = inr loc.
Proof.
  intros Hdir. revert l0. induction ps as [|p ps IH]; intros l0; [done|].
  simpl. destruct (walk n l0) as [[c|c|es]|] eqn:Hl0; try done.
  destruct (Hdir l0 es Hl0) as [es' ->]. apply IH.
Qed.

(** The parent of an existing location is a directory. *)
Lemma walk_removelast (n m : node) (l : list string) :
  is_directory n → walk n l = Some m → ∃ es, walk n (removelast l) = Some (Dir es).
Proof.
  revert n. induction l as [|x l IH]; intros n Hn.
  - destruct n; try done. by eexists.
  - simpl. destruct n as [c|c|es]; try done.
    destruct (lookup_entry es x) as [c|] eqn:Hx; [|done].
    destruct l as [|y l]; [by eexists|].
    intros Hc. change (removelast (x :: y :: l)) with (x :: removelast (y :: l)).
    simpl walk at 1. rewrite Hx. apply IH; [|done].
    simpl in Hc. by destruct c.
Qed.

(** Where resolution ends at a location that is no directory, the
    location is an entry name under a directory. *)
Lemma canon_target (n : node) (l0 ps loc : list string) :
  is_directory n →
  (∃ es, walk n l0 = Some (Dir es)) →
  canon n l0 ps = inr loc → (∀ es, walk n loc ≠ Some (Dir es)) →
  ∃ d x es, loc = d ++ [x] ∧ walk n d = Some (Dir es).
Proof.
  intros Hn. revert l0. induction ps as [|p ps IH]; intros l0 [es0 Hl0]; simpl.
  - intros [= <-] Hloc. by destruct (Hloc es0).
  - rewrite Hl0. destruct ps as [|p' ps].
    + simpl. intros [= <-] Hloc. destruct (decide (p = "..")) as [->|Hp].
      * destruct (walk_removelast n _ l0 Hn Hl0) as [es H]. by destruct (Hloc es).
      * by exists l0, p, es0.
    + intros Hcanon. refine (IH _ _ Hcanon).
      simpl in Hcanon.
      destruct (walk n (if decide (p = "..") then removelast l0 else l0 ++ [p]))
        as [[c|c|es1]|]; try done.
      by exists es1.
Qed.

(** ** What changes of the tree keep *)

Lemma keeps_refl (P : list string → Prop) (f : FileSystem) : keeps P f f.
Proof. split; [done|]. split; [by eauto | done]. Qed.

Lemma keeps_trans (P : list string → Prop) (f1 f2 f3 : FileSystem) :
  keeps P f1 f2 → keeps P f2 f3 → keeps P f1 f3.
Proof.
  intros (H1 & H2 & H3) (K1 & K2 & K3). split; [congruence|]. split.
  - intros l es Hl. destruct (H2 l es Hl) as [es' Hl']. by apply (K2 l es').
  - intros l c HP Hl. by apply K3, H3.
Qed.

Lemma keeps_weaken (P Q : list string → Prop) (f f' : FileSystem) :
  (∀ l, Q l → P l) → keeps P f f' → keeps Q f f'.
Proof. intros HPQ (H1 & H2 & H3). split; [done|]. split; [done|]. eauto. Qed.

Lemma has_cwd_root (f : FileSystem) : has_cwd f → is_directory (root f).
Proof.
  intros [es H]. destruct (cwd f) as [|x l]; simpl in H.
  - by injection H as ->.
  - by destruct (root f).
Qed.

Lemma keeps_has_cwd (P : list string → Prop) (f f' : FileSystem) :
  keeps P f f' → has_cwd f → has_cwd f'.
Proof. intros (H1 & H2 & _) [es H]. unfold has_cwd. rewrite H1. by apply (H2 _ es). Qed.

Lemma keeps_locate (P : list string → Prop) (f f' : FileSystem) (p : Path) (loc : list string) :
  keeps P f f' → locate f p = inr loc → locate f' p = inr loc.
Proof.
  intros (H1 & H2 & _). unfold locate. rewrite H1. by apply canon_kept.
Qed.

Lemma keeps_is_dir (P : list string → Prop) (f f' : FileSystem) (p : Path) :
  keeps P f f' → is_dir f p = true → is_dir f' p = true.
Proof.
  intros Hk. unfold is_dir, stat.
  destruct (locate f p) as [e|loc] eqn:Hloc; [done|].
  rewrite (keeps_locate _ _ _ _ _ Hk Hloc).
  destruct (walk (root f) loc) as [[c|c|es]|] eqn:Hw; try done.
  destruct Hk as (_ & H2 & _). by destruct (H2 loc es Hw) as [es' ->].
Qed.

(** Putting a node at the place of a path, where no directory is: the
    path then stands for that node, and the rest of the tree is kept. *)
Lemma put_at_path (f : FileSystem) (p : Path) (loc : list string) (new : node) :
  has_cwd f → locate f p = inr loc → (∀ es, walk (root f) loc ≠ Some (Dir es)) →
  let f' := {| root := put (root f) loc new; cwd := cwd f |} in
  keeps (λ l, l ≠ loc) f f' ∧ locate f' p = inr loc ∧ stat f' p = inr new.
Proof.
  intros Hcwd Hloc Hnodir f'.
  assert (keeps (λ l, l ≠ loc) f f') as Hk.
  { split; [done|]. split.
    - intros l es. by apply walk_put_dir.
    - intros l c Hne Hl. by apply walk_put_file. }
  split; [done|].
  pose proof (keeps_locate _ _ _ _ _ Hk Hloc) as Hloc'. split; [done|].
  unfold stat. rewrite Hloc'.
  assert (∃ es, walk (root f) (if anchor p then [] else cwd f) = Some (Dir es)) as Hstart.
  { destruct (anchor p); [|done]. pose proof (has_cwd_root f Hcwd) as Hr.
    simpl. destruct (root f); try done. by eexists. }
  destruct (canon_target _ _ _ _ (has_cwd_root f Hcwd) Hstart Hloc Hnodir)
    as (d & x & es & -> & Hd).
  simpl. by rewrite (walk_put_child _ new d x es Hd).
Qed.

(** [os.mkdir] that succeeds: the path is a directory afterwards, and every
    file is kept. *)
Lemma os_mkdir_ok (f f' : FileSystem) (p : Path) :
  has_cwd f → os_mkdir f p = inr f' →
  keeps (λ _, True) f f' ∧ is_dir f' p = true.
Proof.
  intros Hcwd. unfold os_mkdir.
  destruct (locate f p) as [e|loc] eqn:Hloc; [done|].
  destruct (walk (root f) loc) as [n|] eqn:Hw; [done|].
  intros [= <-].
  destruct (put_at_path f p loc (Dir []) Hcwd Hloc) as ((H1 & H2 & H3) & _ & Hstat).
  { intros es. by rewrite Hw. }
  split.
  - split; [done|]. split; [done|]. intros l c _ Hl. apply H3; [|done].
    intros ->. by rewrite Hw in Hl.
  - unfold is_dir. by rewrite Hstat.
Qed.

Lemma mkdir_exist_ok_ok (f f' : FileSystem) (p : Path) :
  has_cwd f → mkdir_exist_ok f p = inr f' →
  keeps (λ _, True) f f' ∧ is_dir f' p = true.
Proof.
  intros Hcwd. unfold mkdir_exist_ok.
  destruct (os_mkdir f p) as [e|f1] eqn:Hmk.
  - destruct e; try done; destruct (is_dir f p) eqn:Hd; try done;
      intros [= <-]; (split; [apply keeps_refl | done]).
  - intros [= <-]. by apply os_mkdir_ok.
Qed.

(** [mkdir(parents=True, exist_ok=True)] that succeeds: the path is a
    directory afterwards, every directory and every file is kept. *)
Lemma mkdir_parents_go_ok (n : nat) (f f' : FileSystem) (p : Path) :
  has_cwd f → mkdir_parents_go n f p = inr f' →
  keeps (λ _, True) f f' ∧ is_dir f' p = true.
Proof.
  revert f f' p. induction n as [|n IH]; intros f f' p Hcwd; simpl;
    destruct (os_mkdir f p) as [e|f1] eqn:Hmk;
    try (intros [= <-]; by apply os_mkdir_ok).
  - destruct e; try done; destruct (is_dir f p) eqn:Hd; try done;
      intros [= <-]; (split; [apply keeps_refl | done]).
  - destruct e;
      try (destruct (is_dir f p) eqn:Hd; try done;
           intros [= <-]; (split; [apply keeps_refl | done])).
    destruct (mkdir_parents_go n f (parent p)) as [e|f2] eqn:Hrec; [done|].
    destruct (IH _ _ _ Hcwd Hrec) as [Hk2 _].
    intros Hlast.
    destruct (mkdir_exist_ok_ok f2 f' p (keeps_has_cwd _ _ _ Hk2 Hcwd) Hlast) as [Hk3 Hd].
    split; [by apply (keeps_trans _ f f2 f') | done].
Qed.

(** Writing a file that succeeds: the path is that file afterwards, or the
    special file it was; every other file is kept. *)
Lemma write_file_ok (f f' : FileSystem) (p : Path) (bytes : string) :
  has_cwd f → write_file f p bytes = inr f' →
  ∃ loc, locate f p = inr loc
         ∧ keeps (λ l, l ≠ loc) f f'
         ∧ ((∃ c, stat f p = inr (Special c) ∧ f' = f)
            ∨ stat f' p = inr (File (Text bytes))).
Proof.
  intros Hcwd Hwrite. unfold write_file in Hwrite.
  destruct (locate f p) as [e|loc] eqn:Hloc; [done|]. exists loc. split; [done|].
  assert ((∀ es, walk (root f) loc ≠ Some (Dir es)) →
          f' = {| root := put (root f) loc (File (Text bytes)); cwd := cwd f |} →
          keeps (λ l, l ≠ loc) f f'
          ∧ ((∃ c, stat f p = inr (Special c) ∧ f' = f)
             ∨ stat f' p = inr (File (Text bytes)))) as Hput.
  { intros Hnodir ->.
    destruct (put_at_path f p loc (File (Text bytes)) Hcwd Hloc Hnodir) as (Hk & _ & Hstat).
    split; [done | by right]. }
  destruct (walk (root f) loc) as [[c|c|es]|] eqn:Hw; try done.
  - injection Hwrite as <-. by apply Hput.
  - injection Hwrite as <-. split; [apply keeps_refl|]. left. exists c.
    unfold stat. by rewrite Hloc, Hw.
  - injection Hwrite as <-. by apply Hput.
Qed.

(** ** What a job does to the file system *)

Lemma write_bytes_ok_fs (p : Path) (b : string) (s s' : State) (u : unit) :
  write_bytes p b s = (s', Ok u) →
  write_file (fs (world s)) p b = inr (fs (world s'))
  ∧ calls (world s') = calls (world s) ∧ engine (world s') = engine (world s).
Proof.
  unfold write_bytes. destruct (write_file _ _ _) as [e|f]; [done|]. by intros [= <-].
Qed.

(** A job that succeeds made the parent directory of its destination and
    then wrote the captured image to the destination. *)
Lemma convert_file_success_fs (svg_path png_path : Path) (s s' : State) (msg : string) :
  convert_file svg_path png_path s = (s', Ok (true, msg)) →
  ∃ f1,
    mkdir_parents_go (length (parts (parent png_path))) (fs (world s)) (parent png_path)
    = inr f1
    ∧ write_file f1 png_path (capture (engine (world s')) (calls (world s')))
      = inr (fs (world s')).
Proof.
  unfold convert_file, try_except.
  destruct (convert_file_try svg_path png_path s) as [s0 [r|[m|code]]] eqn:Htry;
    [|done..].
  intros [= -> ->]. unfold convert_file_try in Htry.
  apply bind_ok_inv in Htry as (s1 & [] & (f1 & Hmk & ->)%mkdir_parents_ok_inv & Htry).
  apply bind_ok_inv in Htry as (s2 & text & Hread & Htry).
  pose proof (read_text_ok_inv _ _ _ _ Hread) as ->.
  apply bind_ok_inv in Htry as (s3 & [w h] & [-> Hdim]%lift_ok_inv & Htry).
  apply bind_ok_inv in Htry as (s4 & [] & ->%page_call_ok_inv & Htry).
  apply bind_ok_inv in Htry as (s5 & [] & ->%page_call_ok_inv & Htry).
  apply bind_ok_inv in Htry as (s6 & cv & [= <- <-] & Htry).
  apply bind_ok_inv in Htry as (s7 & vw & [-> Hvw]%lift_ok_inv & Htry).
  apply bind_ok_inv in Htry as (s8 & vh & [-> Hvh]%lift_ok_inv & Htry).
  apply bind_ok_inv in Htry as (s9 & [] & ->%page_call_ok_inv & Htry).
  apply bind_ok_inv in Htry as (s10 & [] & ->%page_call_ok_inv & Htry).
  apply bind_ok_inv in Htry as (s11 & w0 & [= <- <-] & Htry).
  apply bind_ok_inv in Htry as (s12 & [] & Hshot & Htry).
  destruct (finds_svg _ _); [|done].
  apply bind_ok_inv in Hshot as (s13 & [] & [_ ->]%engine_call_ok_inv & Hshot).
  apply bind_ok_inv in Hshot as (s14 & w1 & [= <- <-] & Hshot).
  apply write_bytes_ok_fs in Hshot as (Hwrite & Hcalls & Hengine).
  injection Htry as <- _. exists f1. split; [done|].
  cbn [world self calls engine] in *. rewrite Hcalls, Hengine. exact Hwrite.
Qed.

(** [raise_keeps_fs m]: when [m] raises, the file system is as before. *)
Lemma raise_keeps_fs_bind {A B} (m : M A) (k : A → M B) :
  (∀ s, fs (world (m s).1) = fs (world s)) →
  (∀ a s s' e, k a s = (s', Raise e) → fs (world s') = fs (world s)) →
  ∀ s s' e, (m ≫= k) s = (s', Raise e) → fs (world s') = fs (world s).
Proof.
  intros Hm Hk s s' e. rewrite bind_run. specialize (Hm s).
  destruct (m s) as [s1 [a|e1]]; simpl in Hm.
  - intros H. apply Hk in H. congruence.
  - intros [= <- <-]. done.
Qed.

Lemma engine_call_fs (c : call) (s : State) :
  fs (world (engine_call c s).1) = fs (world s).
Proof. unfold engine_call. by destruct (respond _ _ _). Qed.

Lemma page_call_fs (c : call) (s : State) :
  fs (world (page_call c s).1) = fs (world s).
Proof.
  unfold page_call. rewrite bind_run. simpl.
  destruct (page (self s)); [apply engine_call_fs | done].
Qed.

Lemma read_text_fs (p : Path) (s : State) : fs (world (read_text p s).1) = fs (world s).
Proof.
  unfold read_text. by destruct (stat _ _) as [e|[[?|?]|[?|?]|es]].
Qed.
Lemma lift_fs {A} (r : result A) (s : State) : fs (world (lift r s).1) = fs (world s).
Proof. reflexivity. Qed.

(** What follows the making of the parent directory in the [try] block
    leaves the file system as it is whenever it raises. *)
Lemma convert_file_try_raise_fs (svg_path png_path : Path) (s s' : State) (e : exn) :
  (svg_content ← read_text svg_path;
   '(svg_width, svg_height) ← lift (infer_dimensions svg_content);
   page_call (SetContent svg_content svg_width svg_height) ;;
   page_call WaitForSelector ;;
   cv ← get_self;
   viewport_width ← lift (int_of_float (fmul svg_width (scale cv)));
   viewport_height ← lift (int_of_float (fmul svg_height (scale cv)));
   page_call (SetViewportSize viewport_width viewport_height) ;;
   page_call QuerySelector ;;
   w ← get_world;
   (if finds_svg (engine w) (calls w)
    then engine_call (Screenshot (to_string png_path)) ;;
         w ← get_world;
         write_bytes png_path (capture (engine w) (calls w))
    else raise (Exception "'NoneType' object has no attribute 'screenshot'")) ;;
   modify_self count_success ;;
   mret (true, "")) s = (s', Raise e) →
  fs (world s') = fs (world s).
Proof.
  revert s s' e.
  apply raise_keeps_fs_bind; [apply read_text_fs | intros svg_content].
  apply raise_keeps_fs_bind; [apply lift_fs | intros [svg_width svg_height]].
  apply raise_keeps_fs_bind; [apply page_call_fs | intros _].
  apply raise_keeps_fs_bind; [apply page_call_fs | intros _].
  apply raise_keeps_fs_bind; [done | intros cv].
  apply raise_keeps_fs_bind; [apply lift_fs | intros vw].
  apply raise_keeps_fs_bind; [apply lift_fs | intros vh].
  apply raise_keeps_fs_bind; [apply page_call_fs | intros _].
  apply raise_keeps_fs_bind; [apply page_call_fs | intros _].
  apply raise_keeps_fs_bind; [done | intros w].
  intros s s' e. rewrite bind_run.
  destruct (finds_svg _ _).
  - rewrite bind_run.
    pose proof (engine_call_fs (Screenshot (to_string png_path)) s) as Hcall.
    destruct (engine_call _ s) as [s1 [[]|e1]]; simpl in Hcall.
    + rewrite bind_run. simpl. unfold write_bytes.
      destruct (write_file _ _ _) as [err|f]; [|done].
      intros [= <- _]. done.
    + intros [= <- _]. done.
  - intros [= <- _]. done.
Qed.

(** A job that fails has written no file: the file system is as before,
    or as the making of the parent directory left it. *)
Lemma convert_file_failure_fs (svg_path png_path : Path) (s s' : State) (msg : string) :
  convert_file svg_path png_path s = (s', Ok (false, msg)) →
  fs (world s') = fs (world s)
  ∨ mkdir_parents_go (length (parts (parent png_path))) (fs (world s)) (parent png_path)
    = inr (fs (world s')).
Proof.
  unfold convert_file, try_except.
  destruct (convert_file_try svg_path png_path s) as [s0 [r|[m|code]]] eqn:Htry.
  - pose proof (convert_file_try_ends svg_path png_path s) as H. rewrite Htry in H.
    destruct H as [-> _]. done.
  - intros [= <- _]. simpl. unfold convert_file_try in Htry.
    rewrite bind_run in Htry. unfold mkdir_parents at 1 in Htry.
    destruct (mkdir_parents_go _ _ _) as [err|f1] eqn:Hmk.
    { injection Htry as <- _. by left. }
    right. apply convert_file_try_raise_fs in Htry. by rewrite Htry.
  - done.
Qed.

(** ** Regular files after a change of the tree *)

(** A regular file of the tree after [put] was there before, or lies in
    what was put. *)
Lemma walk_put_file_back (n new : node) (loc l : list string) (c : data) :
  walk (put n loc new) l = Some (File c) →
  walk n l = Some (File c) ∨ ∃ l', l = loc ++ l' ∧ walk new l' = Some (File c).
Proof.
  revert n l. induction loc as [|x loc IH]; intros n l; simpl.
  { intros H. right. by exists l. }
  destruct n as [c0|c0|es]; [by left..|].
  destruct l as [|y l]; [done|]. simpl.
  destruct (decide (y = x)) as [->|Hne].
  - rewrite lookup_alter_eq. intros H. apply IH in H as [H|(l' & -> & H)].
    + left. destruct (lookup_entry es x) as [m|]; [done|].
      simpl in H. destruct l as [|z l]; done.
    + right. by exists l'.
  - rewrite lookup_alter_ne by done. by left.
Qed.

Lemma os_mkdir_back (f f' : FileSystem) (p : Path) (l : list string) (c : data) :
  os_mkdir f p = inr f' →
  walk (root f') l = Some (File c) → walk (root f) l = Some (File c).
Proof.
  unfold os_mkdir. destruct (locate f p) as [e|loc]; [done|].
  destruct (walk (root f) loc); [done|]. intros [= <-]. simpl.
  intros [H|(l' & -> & H)]%walk_put_file_back; [done|].
  by destruct l'.
Qed.

Lemma mkdir_exist_ok_back (f f' : FileSystem) (p : Path) (l : list string) (c : data) :
  mkdir_exist_ok f p = inr f' →
  walk (root f') l = Some (File c) → walk (root f) l = Some (File c).
Proof.
  unfold mkdir_exist_ok. destruct (os_mkdir f p) as [e|f1] eqn:Hmk.
  - destruct e; [done|..]; (destruct (is_dir f p); [|done]); by intros [= <-].
  - intros [= <-]. by apply os_mkdir_back with p.
Qed.

Lemma mkdir_parents_go_back (n : nat) (f f' : FileSystem) (p : Path)
    (l : list string) (c : data) :
  mkdir_parents_go n f p = inr f' →
  walk (root f') l = Some (File c) → walk (root f) l = Some (File c).
Proof.
  revert f f' p. induction n as [|n IH]; intros f f' p; simpl;
    destruct (os_mkdir f p) as [e|f1] eqn:Hmk.
  - destruct e; [done|..]; (destruct (is_dir f p); [|done]); by intros [= <-].
  - intros [= <-]. by apply os_mkdir_back with p.
  - destruct e; [|(destruct (is_dir f p); [|done]); by intros [= <-]..].
    destruct (mkdir_parents_go n f (parent p)) as [e|f2] eqn:Hgo; [done|].
    intros H1 H2. apply (IH _ _ _ Hgo). by apply (mkdir_exist_ok_back _ _ _ _ _ H1).
  - intros [= <-]. by apply os_mkdir_back with p.
Qed.

Lemma write_file_back (f f' : FileSystem) (p : Path) (bytes : string)
    (l : list string) (c : data) :
  write_file f p bytes = inr f' → locate f p ≠ inr l →
  walk (root f') l = Some (File c) → walk (root f) l = Some (File c).
Proof.
  unfold write_file. destruct (locate f p) as [e|loc]; [done|]. intros Hw Hl.
  assert (walk (put (root f) loc (File (Text bytes))) l = Some (File c) →
          walk (root f) l = Some (File c)) as Hput.
  { intros [H|(l' & -> & H)]%walk_put_file_back; [done|].
    destruct l'; [|done]. rewrite app_nil_r in Hl. done. }
  destruct (walk (root f) loc) as [[c0|c0|es]|]; try done;
    injection Hw as <-; done.
Qed.

(** ** A job and the files on disk *)

Lemma convert_file_success_disk (svg_path png_path : Path) (s s' : State) (msg : string) :
  has_cwd (fs (world s)) →
  convert_file svg_path png_path s = (s', Ok (true, msg)) →
  has_cwd (fs (world s'))
  ∧ is_dir (fs (world s')) (parent png_path) = true
  ∧ (stat (fs (world s')) png_path
     = inr (File (Text (capture (engine (world s')) (calls (world s')))))
     ∨ ∃ c, stat (fs (world s')) png_path = inr (Special c)).
Proof.
  intros Hcwd (f1 & Hmk & Hwrite)%convert_file_success_fs.
  apply mkdir_parents_go_ok in Hmk as [Hkeep1 Hdir]; [|done].
  pose proof (keeps_has_cwd _ _ _ Hkeep1 Hcwd) as Hcwd1.
  apply write_file_ok in Hwrite as (loc & Hloc & Hkeep2 & Hstat); [|done].
  split; [by apply (keeps_has_cwd _ _ _ Hkeep2)|].
  split; [by apply (keeps_is_dir _ _ _ _ Hkeep2)|].
  destruct Hstat as [(c & Hstat & <-)|Hstat]; [right; by exists c | by left].
Qed.



Lemma convert_file_failure_files (svg_path png_path : Path) (s s' : State) (msg : string) :
  has_cwd (fs (world s)) →
  convert_file svg_path png_path s = (s', Ok (false, msg)) →
  ∀ l c, walk (root (fs (world s'))) l = Some (File c)
         ↔ walk (root (fs (world s))) l = Some (File c).
Proof.
  intros Hcwd [->|Hmk]%convert_file_failure_fs l c; [done|].
  split.
  - by apply (mkdir_parents_go_back _ _ _ _ _ _ Hmk).
  - apply mkdir_parents_go_ok in Hmk as [(_ & _ & Hfiles) _]; [|done].
    by apply Hfiles.
Qed.

(** X2. A job that fails creates no regular file and changes none: after
    it the regular files of the tree are those from before, with their
    contents. (It may have made the directories of the destination.) *)
Theorem failed_job_leaves_files (svg_path png_path : Path) (s s' : State) (msg : string) :
  has_cwd (fs (world s)) →
  convert_file svg_path png_path s = (s', Ok (false, msg)) →
  ∀ l c, walk (root (fs (world s'))) l = Some (File c)
         ↔ walk (root (fs (world s))) l = Some (File c).
Proof. apply convert_file_failure_files. Qed.

Lemma failed_job_leaves_files_witness :
  let s' := (convert_file (of_string "svgs/a.svg") (of_string "out/a.png") Demo.started).1 in
  is_dir (fs (world s')) (of_string "out") = true
  ∧ (walk (root (fs (world s'))) ["proj"; "notes.txt"] = Some (File (Text "remember the milk"))
     ↔ walk (root (fs Demo.world0)) ["proj"; "notes.txt"]
       = Some (File (Text "remember the milk"))).
Proof.
  split; [by vm_compute|].
  apply (failed_job_leaves_files (of_string "svgs/a.svg") (of_string "out/a.png")
           Demo.started _ "[Errno 13] Permission denied: 'svgs/a.svg'").
  - by eexists.
  - by vm_compute.
Defined.

(** What a job keeps: every directory, and every regular file at a
    location other than the one its destination resolves to. *)
Lemma convert_file_keeps (svg_path png_path : Path) (s : State) :
  has_cwd (fs (world s)) →
  let f' := fs (world (convert_file svg_path png_path s).1) in
  keeps (λ l, locate f' png_path ≠ inr l) (fs (world s)) f'.
Proof.
  intros Hcwd.
  destruct (convert_file_outcome svg_path png_path s) as (s' & b & msg & Hrun & _).
  rewrite Hrun. simpl. destruct b.
  - apply convert_file_success_fs in Hrun as (f1 & Hmk & Hwrite).
    apply mkdir_parents_go_ok in Hmk as [Hkeep1 _]; [|done].
    pose proof (keeps_has_cwd _ _ _ Hkeep1 Hcwd) as Hcwd1.
    apply write_file_ok in Hwrite as (loc & Hloc & Hkeep2 & _); [|done].
    apply keeps_trans with f1; [by apply (keeps_weaken (λ _, True))|].
    apply (keeps_weaken (λ l, l ≠ loc)); [|done].
    intros l Hl ->. apply Hl. by apply (keeps_locate _ _ _ _ _ Hkeep2).
  - apply convert_file_failure_fs in Hrun as [->|Hmk]; [apply keeps_refl|].
    apply mkdir_parents_go_ok in Hmk as [Hkeep1 _]; [|done].
    by apply (keeps_weaken (λ _, True)).
Qed.

(** X3. Whatever its outcome, a job touches no regular file but its
    destination: at every location other than the one the destination
    resolves to, the regular files after the job are those from before,
    with their contents. In particular the source stays as it is unless
    the destination is the source itself. *)
Theorem job_touches_only_destination (svg_path png_path : Path) (s : State) :
  has_cwd (fs (world s)) →
  let f' := fs (world (convert_file svg_path png_path s).1) in
  ∀ l c, locate f' png_path ≠ inr l →
         (walk (root f') l = Some (File c) ↔ walk (root (fs (world s))) l = Some (File c)).
Proof.
  intros Hcwd f' l c Hl. split.
  - subst f'. revert Hl.
    destruct (convert_file_outcome svg_path png_path s) as (s' & b & msg & Hrun & _).
    rewrite Hrun. simpl. destruct b.
    + apply convert_file_success_fs in Hrun as (f1 & Hmk & Hwrite).
      intros Hl H. apply (mkdir_parents_go_back _ _ _ _ _ _ Hmk).
      apply (write_file_back _ _ _ _ _ _ Hwrite); [|done].
      intros Hloc. apply Hl.
      apply mkdir_parents_go_ok in Hmk as [Hkeep1 _]; [|done].
      pose proof (keeps_has_cwd _ _ _ Hkeep1 Hcwd) as Hcwd1.
      apply write_file_ok in Hwrite as (loc & Hloc' & Hkeep2 & _); [|done].
      rewrite <- Hloc. rewrite Hloc'. by apply (keeps_locate _ _ _ _ _ Hkeep2).
    + intros _. apply convert_file_failure_fs in Hrun as [->|Hmk]; [done|].
      by apply (mkdir_parents_go_back _ _ _ _ _ _ Hmk).
  - destruct (convert_file_keeps svg_path png_path s Hcwd) as (_ & _ & Hfiles).
    by apply Hfiles.
Qed.

Lemma job_touches_only_destination_witness :
  let s' := (convert_file (of_string "svgs/b.svg") (of_string "notes.txt") Demo.started).1 in
  walk (root (fs (world s'))) ["proj"; "notes.txt"] = Some (File (Text "PNG"))
  ∧ (walk (root (fs (world s'))) ["proj"; "svgs"; "b.svg"]
       = Some (File (Text "<svg viewBox='0 0 200 300'></svg>"))
     ↔ walk (root (fs Demo.world0)) ["proj"; "svgs"; "b.svg"]
       = Some (File (Text "<svg viewBox='0 0 200 300'></svg>"))).
Proof.
  split; [by vm_compute|].
  apply (job_touches_only_destination (of_string "svgs/b.svg") (of_string "notes.txt")
           Demo.started).
  - by eexists.
  - by vm_compute.
Defined.

(** ** The files a run leaves alone *)

Lemma spares_same {A} (P : list string → Prop) (m : M A) :
  (∀ s, fs (world (m s).1) = fs (world s)) → spares P m.
Proof. intros H s _. rewrite H. apply keeps_refl. Qed.

Lemma spares_bind {A B} (P : list string → Prop) (m : M A) (k : A → M B) :
  spares P m → (∀ a, spares P (k a)) → spares P (m ≫= k).
Proof.
  intros Hm Hk s Hcwd. rewrite bind_run. specialize (Hm s Hcwd).
  destruct (m s) as [s1 [a|e]]; simpl in Hm; [|done].
  apply keeps_trans with (fs (world s1)); [done|].
  apply Hk. by apply (keeps_has_cwd _ _ _ Hm).
Qed.

Lemma spares_print (P : list string → Prop) (l : line) : spares P (print l).
Proof. by apply spares_same. Qed.

Lemma spares_for_enumerate {A} (P : list string → Prop) (xs : list A)
    (body : nat → A → M unit) :
  (∀ i x, spares P (body i x)) → ∀ i, spares P (for_enumerate i xs body).
Proof.
  intros Hbody. induction xs as [|x xs IH]; intros i; simpl.
  - by apply spares_same.
  - apply spares_bind; [apply Hbody | intros _; apply IH].
Qed.

Lemma spares_mkdir_parents (P : list string → Prop) (p : Path) : spares P (mkdir_parents p).
Proof.
  intros s Hcwd. unfold mkdir_parents.
  destruct (mkdir_parents_go _ _ _) as [e|f] eqn:Hmk; simpl; [apply keeps_refl|].
  apply mkdir_parents_go_ok in Hmk as [Hkeep _]; [|done].
  by apply (keeps_weaken (λ _, True)).
Qed.

Lemma png_name_not_dotdot (y : string) : png_name y → y ≠ "..".
Proof.
  intros [stem ->] H. apply (f_equal String.length) in H.
  rewrite length_append in H. simpl in H. lia.
Qed.

(** A path whose last part is a name resolves to a location that ends in
    that name. *)
Lemma locate_last (f : FileSystem) (p : Path) (init l : list string) (y : string) :
  parts p = init ++ [y] → y ≠ ".." → locate f p = inr l → ∃ d, l = d ++ [y].
Proof.
  intros Hparts Hy. unfold locate. rewrite Hparts, canon_app.
  destruct (canon _ _ init) as [e|d]; [done|].
  intros [-> _]%canon_name; [|done]. by exists d.
Qed.

(** A job whose destination has a name in [.png] keeps every regular file
    that has no such name. *)
Lemma spares_convert_file (svg_path png_path : Path) (init : list string) (y : string) :
  parts png_path = init ++ [y] → png_name y →
  spares not_png (convert_file svg_path png_path).
Proof.
  intros Hparts Hy s Hcwd.
  apply (keeps_weaken (λ l, locate (fs (world (convert_file svg_path png_path s).1)) png_path
                            ≠ inr l)); [|by apply convert_file_keeps].
  intros l Hl Hloc.
  apply (locate_last _ _ _ _ _ Hparts (png_name_not_dotdot _ Hy)) in Hloc as [d ->].
  by apply (Hl d y).
Qed.

Lemma with_suffix_png (p q : Path) :
  with_suffix p ".png" = Ok q →
  anchor q = anchor p ∧ ∃ y, parts q = removelast (parts p) ++ [y] ∧ png_name y.
Proof.
  unfold with_suffix. case_decide; [done|]. intros [= <-]. simpl. split; [done|].
  eexists. split; [done|]. unfold name_with_suffix. by eexists.
Qed.

Lemma png_path_of_png (input_dir output_dir svg_path png_path : Path) :
  png_path_of input_dir output_dir svg_path = Ok png_path →
  ∃ init y, parts png_path = init ++ [y] ∧ png_name y.
Proof.
  unfold png_path_of, relative_to. case_decide; [|done].
  destruct (with_suffix _ _) as [q|e] eqn:Hq; [|done].
  apply with_suffix_png in Hq as (Hanchor & y & Hparts & Hy). simpl in *.
  intros [= <-]. unfold joinpath. rewrite Hanchor. simpl. rewrite Hparts.
  exists (parts output_dir ++ removelast (drop (length (parts input_dir)) (parts svg_path))), y.
  by rewrite app_assoc.
Qed.

Lemma spares_batch_step (input_dir output_dir : Path) (total i : nat) (svg_path : Path) :
  spares not_png (batch_step input_dir output_dir total i svg_path).
Proof.
  unfold batch_step. intros s Hcwd. rewrite bind_run. unfold lift at 1.
  destruct (png_path_of _ _ _) as [png_path|e] eqn:Hpng; [|apply keeps_refl].
  apply png_path_of_png in Hpng as (init & y & Hparts & Hy).
  revert s Hcwd. change (spares not_png
    (print (Progress i total (name svg_path)) ;; convert_file svg_path png_path ;; mret tt)).
  apply spares_bind; [apply spares_print | intros _].
  apply spares_bind; [by apply (spares_convert_file _ _ init y) | intros _].
  by apply spares_same.
Qed.

Lemma spares_convert_batch (input_dir : Path) (output_dir : option Path) :
  spares not_png (convert_batch input_dir output_dir).
Proof.
  unfold convert_batch.
  apply spares_bind; [by apply spares_same | intros w].
  destruct (negb _); [apply spares_print|].
  destruct (negb _); [apply spares_print|].
  apply spares_bind; [apply spares_mkdir_parents | intros _].
  apply spares_bind; [apply spares_print | intros _].
  apply spares_bind; [by apply spares_same | intros svg_files].
  destruct svg_files as [|p ps]; [apply spares_print|].
  apply spares_bind; [by apply spares_same | intros cv].
  do 4 (apply spares_bind; [apply spares_print | intros _]).
  apply spares_for_enumerate. intros i x. apply spares_batch_step.
Qed.

Lemma spares_convert_single (svg_path : Path) :
  spares not_png (convert_single svg_path None).
Proof.
  unfold convert_single.
  apply spares_bind; [by apply spares_same | intros w].
  destruct (negb _); [by apply spares_same|].
  destruct (negb _); [by apply spares_same|].
  intros s Hcwd. rewrite bind_run. unfold lift at 1.
  destruct (with_suffix _ _) as [png_path|e] eqn:Hpng; [|apply keeps_refl].
  apply with_suffix_png in Hpng as (_ & y & Hparts & Hy).
  revert s Hcwd. apply spares_bind; [apply spares_print | intros _].
  apply spares_bind;
    [by apply (spares_convert_file _ _ (removelast (parts svg_path)) y) | intros [[] error]].
  - by apply spares_same.
  - by apply spares_same.
Qed.

Lemma spares_print_summary (P : list string → Prop) : spares P print_summary.
Proof.
  unfold print_summary.
  apply spares_bind; [by apply spares_same | intros cv].
  do 5 (apply spares_bind; [apply spares_print | intros _]).
  destruct (failed_files cv) as [|e es]; [by apply spares_same|].
  do 2 (apply spares_bind; [apply spares_print | intros _]).
  apply spares_for_enumerate. intros _ [filename error]. apply spares_print.
Qed.

Lemma same_bind {A B} (m : M A) (k : A → M B) :
  (∀ s, fs (world (m s).1) = fs (world s)) →
  (∀ a s, fs (world (k a s).1) = fs (world s)) →
  ∀ s, fs (world ((m ≫= k) s).1) = fs (world s).
Proof.
  intros Hm Hk s. rewrite bind_run. specialize (Hm s).
  destruct (m s) as [s1 [a|e]]; simpl in Hm; [|done]. by rewrite Hk.
Qed.

Lemma enter_same (s : State) : fs (world (__enter__ s).1) = fs (world s).
Proof.
  revert s. unfold __enter__.
  repeat (apply same_bind; [first [apply engine_call_fs | done] | intros _]).
  done.
Qed.

Lemma exit_same (s : State) : fs (world (__exit__ s).1) = fs (world s).
Proof.
  revert s. unfold __exit__.
  apply same_bind; [done | intros cv].
  apply same_bind; [destruct (page cv); [apply engine_call_fs | done] | intros _].
  apply same_bind; [destruct (browser cv); [apply engine_call_fs | done] | intros _].
  destruct (playwright cv); [apply engine_call_fs | done].
Qed.

(** The block of [main], when a regular file as input comes without an
    output path: the destinations are all named in [.png]. *)
Lemma main_dispatch_keeps (input_path : Path) (output_path : option Path) (s : State) :
  has_cwd (fs (world s)) →
  (is_file (fs (world s)) input_path = true → output_path = None) →
  keeps not_png (fs (world s)) (fs (world (main_dispatch input_path output_path s).1)).
Proof.
  intros Hcwd Hout. unfold main_dispatch. rewrite bind_run. unfold get_world at 1.
  revert s Hcwd Hout.
  assert (spares not_png
            (cv ← get_self;
             if bool_decide (success_count cv > 0 ∨ fail_count cv > 0) then print_summary
             else mret tt)) as Hsummary.
  { apply spares_bind; [by apply spares_same | intros cv].
    case_bool_decide; [apply spares_print_summary | by apply spares_same]. }
  intros s Hcwd Hout. destruct (is_file _ _).
  - rewrite (Hout eq_refl). revert s Hcwd Hout.
    intros s Hcwd _. revert s Hcwd.
    apply spares_bind; [|done].
    apply spares_bind; [apply spares_convert_single | by intros; apply spares_same].
  - destruct (is_dir _ _).
    + revert s Hcwd Hout. intros s Hcwd _. revert s Hcwd.
      apply spares_bind; [apply spares_convert_batch | done].
    + revert s Hcwd Hout. intros s Hcwd _. revert s Hcwd.
      apply spares_bind; [|done].
      apply spares_bind; [apply spares_print | by intros; apply spares_same].
Qed.

Lemma with_keeps {A} (P : list string → Prop) (body : M A) (s : State) :
  (∀ s1, fs (world s1) = fs (world s) →
         keeps P (fs (world s1)) (fs (world (body s1).1))) →
  keeps P (fs (world s)) (fs (world (with_ body s).1)).
Proof.
  intros Hbody. unfold with_. rewrite bind_run.
  pose proof (enter_same s) as Henter.
  destruct (__enter__ s) as [s1 [[]|e]]; simpl in Henter.
  - unfold then_exit. specialize (Hbody s1 Henter).
    destruct (body s1) as [s2 r]. simpl in Hbody.
    pose proof (exit_same s2) as Hexit.
    destruct (__exit__ s2) as [s3 [[]|e]]; simpl in *; by rewrite Hexit, <- Henter.
  - simpl. rewrite Henter. apply keeps_refl.
Qed.

Lemma main_keeps (args : Args) (w : World) :
  has_cwd (fs w) →
  (is_file (fs w) (input_of args) = true → output_of args = None) →
  keeps not_png (fs w) (fs (world (main args w).1)).
Proof.
  intros Hcwd Hout. unfold main, main_body.
  rewrite bind_run, print_run; cbv beta iota.
  rewrite bind_run, print_run; cbv beta iota.
  rewrite bind_run, print_run; cbv beta iota.
  rewrite bind_run.
  match goal with |- context [with_ ?b ?s0] =>
    pose proof (with_keeps not_png b s0) as Hwith end.
  simpl in Hwith.
  match type of Hwith with ?H → _ => assert H as Hbody end.
  { intros s1 Hfs. apply main_dispatch_keeps; by rewrite Hfs. }
  specialize (Hwith Hbody).
  destruct (with_ _ _) as [s2 [[]|e]]; [|done].
  rewrite bind_run, print_run; cbv beta iota. rewrite print_run. done.
Qed.

Lemma png_name_ending (x : string) :
  png_name x → String.substring (String.length x - 4) 4 x = ".png".
Proof.
  intros [stem ->]. rewrite length_append. simpl.
  replace (String.length stem + 4 - 4)%nat with (String.length stem) by lia.
  by rewrite substring_drop_app.
Qed.

(** X4. A run leaves the sources alone. Unless a regular file is given as
    input together with an output path, a run of [main] changes or
    removes no regular file whose name does not end in [.png], removes no
    directory and stays in its working directory: it only makes
    directories and writes files named in [.png]. *)
Theorem run_keeps_other_files (args : Args) (w : World) :
  has_cwd (fs w) →
  (is_file (fs w) (input_of args) = true → output_of args = None) →
  let f' := fs (world (main args w).1) in
  cwd f' = cwd (fs w)
  ∧ (∀ l es, walk (root (fs w)) l = Some (Dir es) → ∃ es', walk (root f') l = Some (Dir es'))
  ∧ (∀ d x c, ¬ png_name x → walk (root (fs w)) (d ++ [x]) = Some (File c) →
              walk (root f') (d ++ [x]) = Some (File c)).
Proof.
  intros Hcwd Hout. destruct (main_keeps args w Hcwd Hout) as (H1 & H2 & H3).
  split; [done|]. split; [done|]. intros d x c Hx. apply H3.
  intros d' x' [_ [= <-]]%app_inj_tail. done.
Qed.

Lemma run_keeps_other_files_witness :
  let args := {| input_path := "svgs"; output_path := Some "svgs";
                 arg_scale := Demo.one; no_recursive := false |} in
  let f' := fs (world (main args Demo.world0).1) in
  walk (root f') ["proj"; "svgs"; "b.png"] = Some (File (Text "PNG"))
  ∧ walk (root f') (["proj"; "svgs"] ++ ["b.svg"])
    = Some (File (Text "<svg viewBox='0 0 200 300'></svg>")).
Proof.
  split; [by vm_compute|].
  apply (run_keeps_other_files
           {| input_path := "svgs"; output_path := Some "svgs";
              arg_scale := Demo.one; no_recursive := false |} Demo.world0).
  - by eexists.
  - by vm_compute.
  - intros H%png_name_ending. by vm_compute in H.
  - by vm_compute.
Defined.

(** ** The counters stay consistent *)

Lemma consistent_tally (n : nat) (f : Converter → Converter) (c : Converter) :
  tally n f → consistent c → consistent (f c).
Proof.
  intros Hf (H1 & H2 & H3).
  pose proof (tally_success _ _ Hf c). pose proof (tally_fail _ _ Hf c).
  pose proof (tally_failed _ _ Hf c).
  unfold consistent. lia.
Qed.

Lemma preserves_same {A} (m : M A) : (∀ s, self (m s).1 = self s) → preserves m.
Proof. intros H s. by rewrite H. Qed.

Lemma preserves_bind {A B} (m : M A) (k : A → M B) :
  preserves m → (∀ a, preserves (k a)) → preserves (m ≫= k).
Proof.
  intros Hm Hk s Hs. rewrite bind_run. specialize (Hm s Hs).
  destruct (m s) as [s1 [a|e]]; simpl in Hm; [by apply Hk | done].
Qed.

Lemma preserves_evolves {A} (m : M A) :
  (∀ s, ∃ f ls n, evolves f ls s (m s).1 ∧ tally n f) → preserves m.
Proof.
  intros H s Hs. destruct (H s) as (f & ls & n & Hev & Hf).
  rewrite (ev_self _ _ _ _ Hev). by apply (consistent_tally n).
Qed.

Lemma preserves_convert_file (svg_path png_path : Path) :
  preserves (convert_file svg_path png_path).
Proof.
  apply preserves_evolves. intros s.
  destruct (convert_file_outcome svg_path png_path s) as (s' & b & msg & -> & H).
  destruct b.
  - exists count_success, [], 1%nat. split; [apply H | apply tally_count_success].
  - exists (count_failure (name svg_path) msg), [], 1%nat.
    split; [apply H | apply tally_count_failure].
Qed.

Lemma preserves_convert_single (svg_path : Path) (png_path : option Path) :
  preserves (convert_single svg_path png_path).
Proof.
  apply preserves_evolves. intros s.
  destruct (convert_single_run svg_path png_path s) as (s' & b & f & ls & n & -> & H1 & H2).
  by exists f, ls, n.
Qed.

Lemma preserves_convert_batch (input_dir : Path) (output_dir : option Path) :
  preserves (convert_batch input_dir output_dir).
Proof.
  apply preserves_evolves. intros s.
  destruct (convert_batch_run input_dir output_dir s) as (s' & f & ls & -> & H1 & H2).
  by exists f, ls, (length (batch_jobs input_dir output_dir s)).
Qed.

Lemma preserves_print_summary : preserves print_summary.
Proof.
  apply preserves_evolves. intros s.
  destruct (print_summary_run s) as (s' & ls & -> & H).
  exists id, ls, 0%nat. split; [done | apply tally_id].
Qed.

Lemma preserves_main_dispatch (input_path : Path) (output_path : option Path) :
  preserves (main_dispatch input_path output_path).
Proof.
  apply preserves_evolves. intros s.
  destruct (main_dispatch_run input_path output_path s) as (s' & f & ls & n & -> & H1 & H2).
  by exists f, ls, n.
Qed.

Lemma engine_call_self (c : call) (s : State) : self (engine_call c s).1 = self s.
Proof. unfold engine_call. by destruct (respond _ _ _). Qed.

Lemma preserves_set_handles (pw br pg : bool) : preserves (modify_self (set_handles pw br pg)).
Proof. intros s Hs. exact Hs. Qed.

Lemma preserves_enter : preserves __enter__.
Proof.
  unfold __enter__.
  apply preserves_bind; [apply preserves_same, engine_call_self | intros _].
  apply preserves_bind; [apply preserves_set_handles | intros _].
  apply preserves_bind; [apply preserves_same, engine_call_self | intros _].
  apply preserves_bind; [apply preserves_set_handles | intros _].
  apply preserves_bind; [apply preserves_same, engine_call_self | intros _].
  apply preserves_set_handles.
Qed.

Lemma preserves_exit : preserves __exit__.
Proof.
  unfold __exit__.
  apply preserves_bind; [by apply preserves_same | intros cv].
  apply preserves_bind;
    [destruct (page cv); [apply preserves_same, engine_call_self | by apply preserves_same]
    | intros _].
  apply preserves_bind;
    [destruct (browser cv); [apply preserves_same, engine_call_self | by apply preserves_same]
    | intros _].
  destruct (playwright cv); [apply preserves_same, engine_call_self | by apply preserves_same].
Qed.

Lemma preserves_with {A} (body : M A) : preserves body → preserves (with_ body).
Proof.
  intros Hbody. unfold with_.
  apply preserves_bind; [apply preserves_enter | intros _].
  intros s Hs. unfold then_exit. specialize (Hbody s Hs).
  destruct (body s) as [s1 r]. simpl in Hbody.
  pose proof (preserves_exit s1 Hbody) as Hexit.
  by destruct (__exit__ s1) as [s2 [[]|e]].
Qed.

(** X5. The counters of a converter stay consistent: a new converter has
    counters 0 and an empty list of failed files, and every method keeps
    the counters from going below 0 and keeps one entry in [failed_files]
    for each failure counted, whatever is raised on the way. So at the end
    of every run of [main] the summary lists as many failed files as the
    number of failures it prints. *)
Theorem counters_stay_consistent :
  (∀ sc rec, consistent (__init__ sc rec))
  ∧ (∀ svg_path png_path, preserves (convert_file svg_path png_path))
  ∧ (∀ svg_path png_path, preserves (convert_single svg_path png_path))
  ∧ (∀ input_dir output_dir, preserves (convert_batch input_dir output_dir))
  ∧ preserves print_summary
  ∧ preserves __enter__
  ∧ preserves __exit__
  ∧ (∀ args w, consistent (self (main args w).1)).
Proof.
  split; [by intros sc rec|].
  split; [apply preserves_convert_file|].
  split; [apply preserves_convert_single|].
  split; [apply preserves_convert_batch|].
  split; [apply preserves_print_summary|].
  split; [apply preserves_enter|].
  split; [apply preserves_exit|].
  intros args w. unfold main.
  assert (preserves (main_body args)) as Hmain; [|by apply Hmain].
  unfold main_body.
  do 3 (apply preserves_bind; [by apply preserves_same | intros _]).
  apply preserves_bind; [apply preserves_with, preserves_main_dispatch | intros _].
  apply preserves_bind; [by apply preserves_same | intros _].
  by apply preserves_same.
Qed.

(** ** A run whose engine does not start *)

Lemma enter_failure_run (s : State) (cs : list call) (msg : string) :
  enter_failure (engine (world s)) (calls (world s)) = Some (cs, msg) →
  ∃ s1,
    __enter__ s = (s1, Raise (Exception msg))
    ∧ calls (world s1) = calls (world s) ++ cs
    ∧ fs (world s1) = fs (world s)
    ∧ stdout (world s1) = stdout (world s)
    ∧ success_count (self s1) = success_count (self s)
    ∧ fail_count (self s1) = fail_count (self s).
Proof.
  unfold enter_failure, __enter__. rewrite bind_run. unfold engine_call at 1.
  destruct (respond _ _ Start) as [m|] eqn:Hstart.
  { intros [= <- <-]. eexists. split; [reflexivity|]. done. }
  rewrite bind_run. cbn [modify_self]. rewrite bind_run. unfold engine_call at 1.
  cbn [world self calls engine add_call].
  destruct (respond _ _ Launch) as [m|] eqn:Hlaunch.
  { intros [= <- <-]. eexists. split; [reflexivity|]. simpl. by rewrite <- app_assoc. }
  rewrite bind_run. cbn [modify_self]. rewrite bind_run. unfold engine_call at 1.
  cbn [world self calls engine add_call]. rewrite <- app_assoc. simpl.
  destruct (respond _ _ NewPage) as [m|] eqn:Hpage; [|done].
  intros [= <- <-]. eexists. split; [reflexivity|]. simpl. by rewrite <- !app_assoc.
Qed.

(** X6. When one of the three calls of [__enter__] fails, the run ends
    there with the exception of that call, so with exit status 1: nothing
    but the banner is printed, no file or directory is touched, no job is
    counted, and no further call reaches the engine. [__exit__] does not
    run: an engine that started but whose browser did not launch is not
    stopped. *)
Theorem engine_failure_aborts_run (args : Args) (w : World) (cs : list call) (msg : string) :
  enter_failure (engine w) (calls w) = Some (cs, msg) →
  ∃ s',
    main args w = (s', Raise (Exception msg))
    ∧ exit_code (main args w).2 = 1
    ∧ calls (world s') = calls w ++ cs
    ∧ Forall (λ c, c ∈ [Start; Launch; NewPage]) cs
    ∧ fs (world s') = fs w
    ∧ stdout (world s') = stdout w ++ [Banner; Separator; Blank]
    ∧ success_count (self s') = 0 ∧ fail_count (self s') = 0.
Proof.
  intros Hfail.
  assert (Forall (λ c, c ∈ [Start; Launch; NewPage]) cs) as Hcs.
  { revert Hfail. unfold enter_failure.
    repeat (destruct (respond _ _ _); [intros [= <- _]; repeat constructor|]). done. }
  unfold main, main_body.
  rewrite bind_run, print_run; cbv beta iota.
  rewrite bind_run, print_run; cbv beta iota.
  rewrite bind_run, print_run; cbv beta iota.
  rewrite bind_run. unfold with_. rewrite bind_run.
  match goal with |- context [__enter__ ?s0] =>
    destruct (enter_failure_run s0 cs msg Hfail) as (s1 & -> & H1 & H2 & H3 & H4 & H5) end.
  exists s1. split; [done|]. split; [done|]. split; [done|]. split; [done|].
  split; [done|]. split; [|done]. simpl in H3. rewrite H3. by rewrite <- !app_assoc.
Qed.

Lemma engine_failure_aborts_run_witness :
  let no_browser : Engine :=
    {| respond := λ _ c, match c with Launch => Some "no browser" | _ => None end;
       finds_svg := λ _, true; capture := λ _, "PNG" |} in
  let w := {| fs := fs Demo.world0; engine := no_browser; calls := []; stdout := [] |} in
  let args := {| input_path := "svgs"; output_path := None;
                 arg_scale := Demo.one; no_recursive := false |} in
  ∃ s', main args w = (s', Raise (Exception "no browser"))
        ∧ exit_code (main args w).2 = 1
        ∧ calls (world s') = [] ++ [Start; Launch]
        ∧ Forall (λ c, c ∈ [Start; Launch; NewPage]) [Start; Launch]
        ∧ fs (world s') = fs Demo.world0
        ∧ stdout (world s') = [] ++ [Banner; Separator; Blank]
        ∧ success_count (self s') = 0 ∧ fail_count (self s') = 0.
Proof.
  intros no_browser w args.
  apply (engine_failure_aborts_run args w [Start; Launch] "no browser").
  reflexivity.
Defined.

(** ** A directory without documents *)

Lemma is_dir_not_file (f : FileSystem) (p : Path) : is_dir f p = true → is_file f p = false.
Proof. unfold is_dir, is_file. by destruct (stat f p) as [e|[c|c|es]]. Qed.



(** ** What [get_svg_files] finds *)


Lemma joinpath_relative_anchor (directory : Path) (rel : list string) :
  anchor (joinpath directory (mkPath false rel)) = anchor directory.
Proof. reflexivity. Qed.

(** X9. The list of [get_svg_files] does not depend on the order in which
    the system lists the entries of a directory: two trees in which the
    search finds the same paths, in whatever order, give the same list. *)
Theorem get_svg_files_order (rec : bool) (f f' : FileSystem) (directory : Path) :
  (if rec then rglob f directory else glob f directory)
  ≡ₚ (if rec then rglob f' directory else glob f' directory) →
  svg_files_in rec f directory = svg_files_in rec f' directory.
Proof.
  intros Hperm. unfold svg_files_in.
  apply (sorted_order_irrelevant (anchor directory)); [|done].
  apply Forall_forall. intros p Hp.
  assert (p ∈ svg_files_in rec f directory) as Hin.
  { unfold svg_files_in. by rewrite sorted_permutation. }
  by apply svg_files_in_shape in Hin as (dirs & x & _ & ->).
Qed.

Lemma get_svg_files_order_witness :
  let swapped :=
    {| root := Dir [("a.svg", File (Text "<svg></svg>"));
                    ("icons.svg", Dir [("readme.txt", File (Text "icons"))])];
       cwd := [] |} in
  glob DemoDir.files (of_string ".") = [of_string "icons.svg"; of_string "a.svg"]
  ∧ glob swapped (of_string ".") = [of_string "a.svg"; of_string "icons.svg"]
  ∧ svg_files_in false DemoDir.files (of_string ".")
    = svg_files_in false swapped (of_string ".").
Proof.
  intros swapped. split; [by vm_compute|]. split; [by vm_compute|].
  apply (get_svg_files_order false DemoDir.files swapped (of_string ".")).
  assert (glob DemoDir.files (of_string ".") = [of_string "icons.svg"; of_string "a.svg"])
    as -> by (by vm_compute).
  assert (glob swapped (of_string ".") = [of_string "a.svg"; of_string "icons.svg"])
    as -> by (by vm_compute).
  apply Permutation_swap.
Defined.

(** ** The destinations of a batch do not collide *)

Lemma append_inj_l (s1 s2 t : string) : s1 +:+ t = s2 +:+ t → s1 = s2.
Proof.
  revert s2. induction s1 as [|c s1 IH]; intros [|c2 s2] H.
  - done.
  - apply (f_equal String.length) in H. rewrite append_nil_l, append_cons in H.
    simpl in H. rewrite length_append in H. lia.
  - apply (f_equal String.length) in H. rewrite append_nil_l, append_cons in H.
    simpl in H. rewrite length_append in H. lia.
  - rewrite !append_cons in H. injection H as -> H. by rewrite (IH _ H).
Qed.

Lemma name_enumerated (directory : Path) (dirs : list string) (x : string) :
  name (joinpath directory (mkPath false (dirs ++ [x]))) = x.
Proof. unfold name, joinpath. simpl. by rewrite !app_assoc, List.last_last. Qed.

(** The destination of an enumerated file whose name is not just [.svg]:
    the same relative path under the output directory, with [.png] in the
    place of [.svg]. *)
Lemma png_path_of_found (rec : bool) (f : FileSystem) (input_dir output_dir p : Path) :
  p ∈ svg_files_in rec f input_dir → name p ≠ ".svg" →
  ∃ dirs stem,
    p = joinpath input_dir (mkPath false (dirs ++ [stem +:+ ".svg"]))
    ∧ png_path_of input_dir output_dir p
      = Ok (joinpath output_dir (mkPath false (dirs ++ [stem +:+ ".png"]))).
Proof.
  intros (dirs & x & Hx & ->)%svg_files_in_shape Hname.
  rewrite name_enumerated in Hname.
  destruct (fnmatch_svg_stem x Hx) as [stem ->]. exists dirs, stem.
  split; [done|].
  rewrite png_path_of_enumerated by (by apply fnmatch_svg_nonempty).
  rewrite name_with_suffix_svg; [done|]. by intros ->.
Qed.

(** X10. No two files of a batch are written to the same image: two
    enumerated files with the same destination are the same file, as long
    as neither is named just [.svg]. (A file named [.svg] has no suffix
    for [with_suffix] to replace, so it shares the destination [.svg.png]
    with a file named [.svg.svg] beside it.) *)
Theorem batch_destinations_distinct (rec : bool) (f : FileSystem)
    (input_dir output_dir p q png_path : Path) :
  p ∈ svg_files_in rec f input_dir → q ∈ svg_files_in rec f input_dir →
  name p ≠ ".svg" → name q ≠ ".svg" →
  png_path_of input_dir output_dir p = Ok png_path →
  png_path_of input_dir output_dir q = Ok png_path →
  p = q.
Proof.
  intros Hp Hq Hnp Hnq.
  destruct (png_path_of_found rec f input_dir output_dir p Hp Hnp)
    as (dirs1 & stem1 & -> & ->).
  destruct (png_path_of_found rec f input_dir output_dir q Hq Hnq)
    as (dirs2 & stem2 & -> & ->).
  intros [= <-]. unfold joinpath at 1 2. simpl.
  intros [= [Hdirs Hstem]%app_inv_head%app_inj_tail].
  apply append_inj_l in Hstem. by subst.
Qed.

Lemma batch_destinations_distinct_witness :
  let input_dir := of_string "svgs" in
  let output_dir := of_string "png_output" in
  let p := of_string "svgs/sub/c.svg" in
  p ∈ svg_files_in true (fs Demo.world0) input_dir
  ∧ png_path_of input_dir output_dir p = Ok (of_string "png_output/sub/c.png")
  ∧ p = p
  ∧ png_path_of input_dir output_dir (of_string "svgs/.svg")
    = png_path_of input_dir output_dir (of_string "svgs/.svg.svg").
Proof.
  intros input_dir output_dir p.
  assert (p ∈ svg_files_in true (fs Demo.world0) input_dir) as Hp.
  { apply list_elem_of_In. vm_compute. auto. }
  split; [exact Hp|]. split; [by vm_compute|]. split; [|by vm_compute].
  apply (batch_destinations_distinct true (fs Demo.world0) input_dir output_dir p p
           (of_string "png_output/sub/c.png") Hp Hp); by vm_compute.
Defined.

(** ** The answer of [convert_single] *)



(** ** A converter that was not entered *)

Lemma convert_file_try_unstarted (svg_path png_path : Path) (s : State) :
  page (self s) = false →
  ∃ s1 msg,
    convert_file_try svg_path png_path s = (s1, Raise (Exception msg))
    ∧ calls (world s1) = calls (world s) ∧ self s1 = self s.
Proof.
  intros Hpage. unfold convert_file_try.
  rewrite bind_run. unfold mkdir_parents at 1.
  destruct (mkdir_parents_go _ _ _) as [e|f1]; [by eexists _, _|].
  rewrite bind_run. unfold read_text at 1. cbn [world self fs set_fs].
  destruct (stat f1 svg_path) as [e|[[t|m]|[t|m]|es]]; try (by eexists _, _).
  - rewrite bind_run. unfold lift at 1.
    destruct (infer_dimensions t) as [[w h]|e] eqn:Hdim.
    + rewrite bind_run. unfold page_call at 1. rewrite bind_run. unfold get_self at 1.
      cbn [self]. rewrite Hpage. by eexists _, _.
    + apply infer_dimensions_exn in Hdim as [m ->]. by eexists _, _.
  - rewrite bind_run. unfold lift at 1.
    destruct (infer_dimensions t) as [[w h]|e] eqn:Hdim.
    + rewrite bind_run. unfold page_call at 1. rewrite bind_run. unfold get_self at 1.
      cbn [self]. rewrite Hpage. by eexists _, _.
    + apply infer_dimensions_exn in Hdim as [m ->]. by eexists _, _.
Qed.

(** X12. On a converter that was not entered (its [page] is [None]) every
    job fails: [convert_file] counts a failure and returns [False]
    without a single call to the engine. *)
Theorem unstarted_converter_fails (svg_path png_path : Path) (s : State) :
  page (self s) = false →
  ∃ s' msg,
    convert_file svg_path png_path s = (s', Ok (false, msg))
    ∧ calls (world s') = calls (world s)
    ∧ self s' = count_failure (name svg_path) msg (self s).
Proof.
  intros Hpage. unfold convert_file, try_except.
  destruct (convert_file_try_unstarted svg_path png_path s Hpage)
    as (s1 & msg & -> & Hcalls & Hself).
  eexists _, msg. split; [reflexivity|]. simpl. by rewrite Hself.
Qed.

Lemma unstarted_converter_fails_witness :
  let s := {| self := __init__ Demo.one true; world := Demo.world0 |} in
  ∃ s' msg,
    convert_file (of_string "svgs/b.svg") (of_string "out/b.png") s = (s', Ok (false, msg))
    ∧ calls (world s') = calls (world s)
    ∧ self s' = count_failure "b.svg" msg (self s).
Proof.
  intros s.
  apply (unstarted_converter_fails (of_string "svgs/b.svg") (of_string "out/b.png") s).
  reflexivity.
Defined.

(** ** The summary *)

Lemma print_entries_lines (i : nat) (entries : list (string * string)) (s : State) :
  ∃ s',
    for_enumerate i entries (λ _ '(filename, error), print (FailedEntry filename error)) s
    = (s', Ok tt)
    ∧ self s' = self s ∧ fs (world s') = fs (world s)
    ∧ engine (world s') = engine (world s) ∧ calls (world s') = calls (world s)
    ∧ stdout (world s')
      = stdout (world s) ++ ((λ '(filename, error), FailedEntry filename error) <$> entries).
Proof.
  revert i s. induction entries as [|[filename error] entries IH]; intros i s; simpl.
  - exists s. by rewrite app_nil_r.
  - rewrite bind_run, print_run.
    destruct (IH (S i) {| self := self s;
                          world := add_line (FailedEntry filename error) (world s) |})
      as (s' & -> & H1 & H2 & H3 & H4 & H5).
    exists s'. split; [done|]. repeat (split; [done|]).
    rewrite H5. simpl. by rewrite <- app_assoc.
Qed.

Lemma print_summary_run_lines (s : State) :
  ∃ s',
    print_summary s = (s', Ok tt)
    ∧ self s' = self s ∧ fs (world s') = fs (world s)
    ∧ engine (world s') = engine (world s) ∧ calls (world s') = calls (world s)
    ∧ stdout (world s') = stdout (world s) ++ summary_lines (self s).
Proof.
  unfold print_summary, summary_lines. rewrite bind_run. unfold get_self at 1.
  cbv beta iota.
  do 5 (rewrite bind_run, print_run; cbv beta iota).
  cbn [self world].
  destruct (failed_files (self s)) as [|e es] eqn:Hfailed.
  - rewrite ret_run. eexists. split; [done|]. cbn.
    by rewrite <- !app_assoc.
  - do 2 (rewrite bind_run, print_run; cbv beta iota).
    match goal with |- context [for_enumerate ?i ?xs _ ?s0] =>
      destruct (print_entries_lines i xs s0) as (s' & -> & H1 & H2 & H3 & H4 & H5) end.
    exists s'. split; [done|]. repeat (split; [done|]).
    rewrite H5. cbn [stdout world add_line]. by rewrite <- !app_assoc.
Qed.


(** ** What the search for the view box finds *)

Lemma strip_prefix_inv (p s r : string) : strip_prefix p s = Some r → s = p +:+ r.
Proof.
  revert s. induction p as [|a p IH]; intros s; simpl.
  - by intros [= ->].
  - destruct s as [|b s]; [done|]. case_decide; [|done]. subst.
    intros H%IH. by rewrite append_cons, H.
Qed.

Lemma span_value_inv (s v rest : string) :
  span_value s = (v, rest) →
  s = v +:+ rest ∧ no_quote v
  ∧ match rest with "" => True | String q _ => is_quote q = true end.
Proof.
  revert v rest. induction s as [|c s IH]; intros v rest; simpl.
  - by intros [= <- <-].
  - destruct (is_quote c) eqn:Hc.
    + intros [= <- <-]. by rewrite append_nil_l.
    + destruct (span_value s) as [v' rest']. intros [= <- <-].
      destruct (IH v' rest' eq_refl) as (-> & Hv & Hrest).
      by rewrite append_cons.
Qed.

Lemma match_here_inv (s v : string) :
  match_here s = Some v →
  v ≠ "" ∧ no_quote v
  ∧ ∃ q1 q2 post, is_quote q1 = true ∧ is_quote q2 = true
                  ∧ s = "viewBox=" +:+ String q1 (v +:+ String q2 post).
Proof.
  unfold match_here.
  destruct (strip_prefix "viewBox=" s) as [[|q1 rest]|] eqn:Hpre; try done.
  destruct (is_quote q1) eqn:Hq1; [|done].
  destruct (span_value rest) as [[|c v'] [|q2 post]] eqn:Hspan; try done.
  intros [= <-].
  apply span_value_inv in Hspan as (-> & Hv & Hq2).
  apply strip_prefix_inv in Hpre as ->.
  split; [done|]. split; [done|]. by exists q1, q2, post.
Qed.

Lemma search_viewBox_inv (s v : string) :
  search_viewBox s = Some v → ∃ pre rest, s = pre +:+ rest ∧ match_here rest = Some v.
Proof.
  induction s as [|c s IH]; rewrite search_viewBox_unfold.
  - destruct (match_here "") as [v'|] eqn:Hm; [|done].
    intros [= <-]. by exists "", "".
  - destruct (match_here (String c s)) as [v'|] eqn:Hm.
    + intros [= <-]. by exists "", (String c s).
    + intros (pre & rest & -> & Hrest)%IH. by exists (String c pre), rest.
Qed.

Lemma search_viewBox_complete (pre rest v : string) :
  match_here rest = Some v → ∃ v', search_viewBox (pre +:+ rest) = Some v'.
Proof.
  intros Hrest. induction pre as [|c pre IH].
  - rewrite append_nil_l, search_viewBox_unfold, Hrest. by exists v.
  - rewrite append_cons, search_viewBox_unfold.
    destruct (match_here (String c (pre +:+ rest))) as [v'|]; [by exists v' | exact IH].
Qed.

(** X14. The search for the view box finds a value exactly when the text
    holds, somewhere, [viewBox=] followed by a quote character, one or
    more characters that are no quote characters, and a quote character;
    and the value it returns is such a run of characters between two
    quote characters after [viewBox=]: never empty, never with a quote
    character in it. *)
Theorem view_box_search_finds (text : string) :
  (∀ v, search_viewBox text = Some v →
        v ≠ "" ∧ no_quote v
        ∧ ∃ pre q1 q2 post,
            is_quote q1 = true ∧ is_quote q2 = true
            ∧ text = pre +:+ "viewBox=" +:+ String q1 (v +:+ String q2 post))
  ∧ (∀ pre q1 v q2 post,
       is_quote q1 = true → is_quote q2 = true → v ≠ "" → no_quote v →
       text = pre +:+ "viewBox=" +:+ String q1 (v +:+ String q2 post) →
       ∃ v', search_viewBox text = Some v').
Proof.
  split.
  - intros v (pre & rest & -> & (Hv & Hnq & q1 & q2 & post & Hq1 & Hq2 & ->)%match_here_inv)
      %search_viewBox_inv.
    split; [done|]. split; [done|]. by exists pre, q1, q2, post.
  - intros pre q1 v q2 post Hq1 Hq2 Hv Hnq ->.
    apply (search_viewBox_complete pre _ v). by apply match_here_attribute.
Qed.

(** ** Scales that are not finite *)

Lemma int_of_float_finite (x : float) (n : Z) : int_of_float x = Ok n → isfinite x = true.
Proof. by destruct x. Qed.

Lemma fmul_finite (x y : float) :
  isfinite (fmul x y) = true → isfinite x = true ∧ isfinite y = true.
Proof.
  unfold fmul. by destruct x as [sx|sx| |sx mx ex], y as [sy|sy| |sy my ey].
Qed.

(** X15. With a scale that is not a finite number ([nan], [inf] or
    [-inf], all of which [float] reads from the command line) no job can
    succeed: [int] raises on the product of a dimension and the scale, so
    [convert_file] counts a failure and returns [False]. *)
Theorem job_needs_finite_scale (svg_path png_path : Path) (s : State) :
  isfinite (scale (self s)) = false →
  ∃ s' msg,
    convert_file svg_path png_path s = (s', Ok (false, msg))
    ∧ self s' = count_failure (name svg_path) msg (self s).
Proof.
  intros Hscale.
  destruct (convert_file_outcome svg_path png_path s) as (s' & b & msg & Hrun & H).
  destruct b.
  - apply convert_file_success_inv in Hrun
      as (s1 & text & w & h & vw & vh & _ & _ & Hvw & _).
    apply int_of_float_finite, fmul_finite in Hvw as [_ Hfin]. congruence.
  - exists s', msg. split; [done|]. apply (ev_self _ _ _ _ H).
Qed.

Lemma job_needs_finite_scale_witness :
  let s := Demo.doc_state (S754_infinity false) "<svg viewBox='0 0 200 300'></svg>" in
  (convert_file (of_string "doc.svg") (of_string "doc.png") s).2
  = Ok (false, "cannot convert float infinity to integer")
  ∧ ∃ s' msg,
      convert_file (of_string "doc.svg") (of_string "doc.png") s = (s', Ok (false, msg))
      ∧ self s' = count_failure "doc.svg" msg (self s).
Proof.
  intros s. split; [by vm_compute|].
  apply (job_needs_finite_scale (of_string "doc.svg") (of_string "doc.png") s).
  reflexivity.
Defined.

(** ** The exit status of a run *)

Lemma engine_call_raises (c : call) (s : State) (code : Z) :
  (engine_call c s).2 ≠ Raise (SystemExit code).
Proof. unfold engine_call. by destruct (respond _ _ _). Qed.

Lemma bind_raises {A B} (m : M A) (k : A → M B) :
  (∀ s code, (m s).2 ≠ Raise (SystemExit code)) →
  (∀ a s code, (k a s).2 ≠ Raise (SystemExit code)) →
  ∀ s code, ((m ≫= k) s).2 ≠ Raise (SystemExit code).
Proof.
  intros Hm Hk s code. rewrite bind_run. specialize (Hm s code).
  destruct (m s) as [s1 [a|e]]; simpl in *; [apply Hk | intros [= ->]; by destruct Hm].
Qed.

Lemma enter_raises (s : State) (code : Z) : (__enter__ s).2 ≠ Raise (SystemExit code).
Proof.
  revert s code. unfold __enter__.
  repeat (apply bind_raises; [first [apply engine_call_raises | done] | intros _]).
  done.
Qed.

Lemma exit_raises (s : State) (code : Z) : (__exit__ s).2 ≠ Raise (SystemExit code).
Proof.
  revert s code. unfold __exit__.
  apply bind_raises; [done | intros cv].
  apply bind_raises; [destruct (page cv); [apply engine_call_raises | done] | intros _].
  apply bind_raises; [destruct (browser cv); [apply engine_call_raises | done] | intros _].
  destruct (playwright cv); [apply engine_call_raises | done].
Qed.

(** What a [with] statement returns or raises: what its block does, or an
    [Exception] of [__enter__] or [__exit__]. *)
Lemma with_result {A} (body : M A) (s : State) :
  (∃ msg, (with_ body s).2 = Raise (Exception msg))
  ∨ (∃ s1, (with_ body s).2 = (body s1).2).
Proof.
  unfold with_. rewrite bind_run.
  pose proof (enter_raises s) as Henter.
  destruct (__enter__ s) as [s1 [[]|[msg|code]]]; simpl in Henter.
  - unfold then_exit. destruct (body s1) as [s2 r] eqn:Hbody.
    pose proof (exit_raises s2) as Hexit.
    destruct (__exit__ s2) as [s3 [[]|[msg|code]]]; simpl in Hexit.
    + right. exists s1. by rewrite Hbody.
    + left. by exists msg.
    + by destruct (Hexit code).
  - left. by exists msg.
  - by destruct (Henter code).
Qed.

Lemma dispatch_result_cases (input_path : Path) (output_path : option Path) (s : State) :
  dispatch_result input_path output_path s = Ok tt
  ∨ dispatch_result input_path output_path s = Raise (SystemExit 1)
  ∨ ∃ msg, dispatch_result input_path output_path s = Raise (Exception msg).
Proof.
  unfold dispatch_result, batch_result.
  destruct (is_file _ _); [by left|].
  destruct (is_dir _ _); [|by right; left].
  destruct (_ && _); [|by left].
  destruct (mkdir_parents_go _ _ _); [right; right; by eexists | by left].
Qed.


(** ** What a run prints *)

Lemma prints_silent {A} (P : line → Prop) (m : M A) :
  (∀ s, stdout (world (m s).1) = stdout (world s)) → prints P m.
Proof. intros H s. exists []. by rewrite app_nil_r. Qed.

Lemma prints_print (P : line → Prop) (l : line) : P l → prints P (print l).
Proof. intros Hl s. exists [l]. split; [done | by constructor]. Qed.

Lemma prints_bind {A B} (P : line → Prop) (m : M A) (k : A → M B) :
  prints P m → (∀ a, prints P (k a)) → prints P (m ≫= k).
Proof.
  intros Hm Hk s. rewrite bind_run. destruct (Hm s) as (ls1 & H1 & HP1).
  destruct (m s) as [s1 [a|e]]; simpl in H1; [|by exists ls1].
  destruct (Hk a s1) as (ls2 & H2 & HP2). exists (ls1 ++ ls2).
  split; [by rewrite H2, H1, app_assoc | by apply Forall_app].
Qed.

Lemma prints_for_enumerate {A} (P : line → Prop) (xs : list A) (body : nat → A → M unit) :
  (∀ i x, prints P (body i x)) → ∀ i, prints P (for_enumerate i xs body).
Proof.
  intros Hbody. induction xs as [|x xs IH]; intros i; simpl.
  - by apply prints_silent.
  - apply prints_bind; [apply Hbody | intros _; apply IH].
Qed.

Lemma prints_convert_file (P : line → Prop) (svg_path png_path : Path) :
  prints P (convert_file svg_path png_path).
Proof.
  apply prints_silent. intros s.
  destruct (convert_file_outcome svg_path png_path s) as (s' & b & msg & -> & H).
  simpl. destruct b; [destruct H as [_ H]|];
    rewrite (ev_stdout _ _ _ _ H); by rewrite app_nil_r.
Qed.

Lemma prints_mkdir_parents (P : line → Prop) (p : Path) : prints P (mkdir_parents p).
Proof.
  apply prints_silent. intros s. unfold mkdir_parents.
  by destruct (mkdir_parents_go _ _ _).
Qed.

Lemma prints_print_summary : prints (λ l, guard_line l = false) print_summary.
Proof.
  unfold print_summary.
  apply prints_bind; [by apply prints_silent | intros cv].
  do 5 (apply prints_bind; [by apply prints_print | intros _]).
  destruct (failed_files cv) as [|e es]; [by apply prints_silent|].
  do 2 (apply prints_bind; [by apply prints_print | intros _]).
  apply prints_for_enumerate. intros _ [filename error]. by apply prints_print.
Qed.

(** Past its first guard, [convert_single] prints plain lines only. *)
Lemma convert_single_prints (svg_path : Path) (png_path : option Path) (s : State) :
  exists_ (fs (world s)) svg_path = true →
  ∃ ls, stdout (world (convert_single svg_path png_path s).1) = stdout (world s) ++ ls
        ∧ Forall plain_line ls.
Proof.
  intros Hex. unfold convert_single. rewrite bind_run. unfold get_world at 1.
  cbv beta iota. rewrite Hex. cbn [negb]. clear Hex. revert s.
  change (prints plain_line
    (if negb (bool_decide (lower_string (suffix svg_path) = ".svg")) then
       print (ErrNotSvg svg_path) ;; mret false
     else
       png_path ← match png_path with
                  | None => lift (with_suffix svg_path ".png")
                  | Some p => mret p
                  end;
       print (Converting (name svg_path)) ;;
       '(success, error) ← convert_file svg_path png_path;
       if success : bool then print (Succeeded png_path) ;; mret true
       else print (FailedWith error) ;; mret false)).
  destruct (negb _).
  - apply prints_bind; [by apply prints_print | intros _]. by apply prints_silent.
  - apply prints_bind; [by destruct png_path; apply prints_silent | intros png].
    apply prints_bind; [by apply prints_print | intros _].
    apply prints_bind; [apply prints_convert_file | intros [[] error]].
    + apply prints_bind; [by apply prints_print | intros _]. by apply prints_silent.
    + apply prints_bind; [by apply prints_print | intros _]. by apply prints_silent.
Qed.

Lemma prints_batch_step (input_dir output_dir : Path) (total i : nat) (svg_path : Path) :
  prints plain_line (batch_step input_dir output_dir total i svg_path).
Proof.
  unfold batch_step.
  apply prints_bind; [by apply prints_silent | intros png_path].
  apply prints_bind; [by apply prints_print | intros _].
  apply prints_bind; [apply prints_convert_file | intros _].
  by apply prints_silent.
Qed.

(** Past its guards, [convert_batch] prints plain lines only. *)
Lemma convert_batch_prints (input_dir : Path) (output_dir : option Path) (s : State) :
  is_dir (fs (world s)) input_dir = true →
  ∃ ls, stdout (world (convert_batch input_dir output_dir s).1) = stdout (world s) ++ ls
        ∧ Forall plain_line ls.
Proof.
  intros Hdir. pose proof (is_dir_exists _ _ Hdir) as Hex.
  unfold convert_batch. rewrite bind_run. unfold get_world at 1.
  cbv beta iota. rewrite Hex, Hdir. cbn [negb]. clear Hex Hdir. revert s.
  match goal with |- ∀ s, ∃ ls, stdout (world (?m s).1) = _ ∧ _ =>
    change (prints plain_line m) end.
  apply prints_bind; [apply prints_mkdir_parents | intros _].
  apply prints_bind; [by apply prints_print | intros _].
  apply prints_bind; [by apply prints_silent | intros svg_files].
  destruct svg_files as [|p ps]; [by apply prints_print|].
  apply prints_bind; [by apply prints_silent | intros cv].
  do 4 (apply prints_bind; [by apply prints_print | intros _]).
  apply prints_for_enumerate. intros i x. apply prints_batch_step.
Qed.

(** When [convert_batch] raises, which only the making of the output
    directory does, the converter is as before. *)
Lemma convert_batch_raise (input_dir : Path) (output_dir : option Path) (s s' : State)
    (e : exn) :
  convert_batch input_dir output_dir s = (s', Raise e) → self s' = self s.
Proof.
  intros Hrun.
  destruct (convert_batch_run input_dir output_dir s) as (s1 & f & ls & Hrun' & _).
  rewrite Hrun in Hrun'. injection Hrun' as <- Hres.
  unfold batch_result in Hres.
  destruct (exists_ (fs (world s)) input_dir) eqn:Hex;
    destruct (is_dir (fs (world s)) input_dir) eqn:Hdir; simpl in Hres; try done.
  destruct (mkdir_parents_go _ _ _) as [err|f'] eqn:Hmk; [|done].
  revert Hrun. unfold convert_batch. rewrite bind_run. unfold get_world at 1.
  cbv beta iota. rewrite Hex, Hdir. cbn [negb].
  rewrite bind_run. unfold mkdir_parents at 1. rewrite Hmk. by intros [= <- _].
Qed.

Lemma summary_lines_no_guard (c : Converter) :
  Forall (λ l, guard_line l = false) (summary_lines c).
Proof.
  unfold summary_lines. apply Forall_app. split; [by repeat constructor|].
  destruct (failed_files c) as [|e es]; [done|].
  do 2 (constructor; [done|]). apply Forall_fmap, Forall_forall. by intros [n err] _.
Qed.

Lemma plain_line_no_guard (ls : list line) :
  Forall plain_line ls → Forall (λ l, guard_line l = false) ls.
Proof. intros H. apply (Forall_impl _ _ _ H). by intros l [_ Hl]. Qed.

(** The lines of the block of [main] on a converter that has counted
    nothing yet: plain lines, and then the summary exactly when a job has
    been counted. *)
Lemma main_dispatch_lines (input_path : Path) (output_path : option Path) (s : State) :
  success_count (self s) = 0 → fail_count (self s) = 0 →
  ∃ s' r ls,
    main_dispatch input_path output_path s = (s', r)
    ∧ stdout (world s') = stdout (world s) ++ ls
    ∧ if bool_decide (success_count (self s') > 0 ∨ fail_count (self s') > 0)
      then ∃ before, ls = before ++ summary_lines (self s') ∧ Forall plain_line before
      else Forall plain_line ls.
Proof.
  intros Hsc Hfc. unfold main_dispatch. rewrite bind_run. unfold get_world at 1.
  cbv beta iota.
  assert (∃ sb rb lb,
            (if is_file (fs (world s)) input_path
             then convert_single input_path output_path ;; mret tt
             else if is_dir (fs (world s)) input_path
                  then convert_batch input_path output_path
                  else print (ErrPathMissing input_path) ;; raise (SystemExit 1)) s
            = (sb, rb)
            ∧ stdout (world sb) = stdout (world s) ++ lb
            ∧ Forall plain_line lb
            ∧ (∀ e, rb = Raise e → self sb = self s)) as (sb & rb & lb & Hrun & Hout & Hlb & Hraise).
  { destruct (is_file (fs (world s)) input_path) eqn:Hfile.
    - destruct (convert_single_prints input_path output_path s (is_file_exists _ _ Hfile))
        as (lb & Hout & Hlb).
      destruct (convert_single_run input_path output_path s) as (sb & b & f & ls & n & Hrun & _).
      rewrite Hrun in Hout. exists sb, (Ok tt), lb.
      rewrite bind_run, Hrun. split; [done|]. split; [done|]. split; [done|]. done.
    - destruct (is_dir (fs (world s)) input_path) eqn:Hdir.
      + destruct (convert_batch_prints input_path output_path s Hdir) as (lb & Hout & Hlb).
        destruct (convert_batch input_path output_path s) as [sb rb] eqn:Hrun.
        exists sb, rb, lb. split; [done|]. split; [done|]. split; [done|].
        intros e ->. by apply (convert_batch_raise _ _ _ _ _ Hrun).
      + rewrite bind_run, print_run. eexists _, _, [_]. split; [reflexivity|].
        split; [done|]. split; [by repeat constructor|]. done. }
  rewrite bind_run, Hrun. destruct rb as [[]|e].
  - rewrite bind_run. unfold get_self at 1. cbv beta iota.
    destruct (bool_decide (success_count (self sb) > 0 ∨ fail_count (self sb) > 0)) eqn:Hcount.
    + destruct (print_summary_run_lines sb) as (s' & -> & Hself & _ & _ & _ & Hsum).
      exists s', (Ok tt), (lb ++ summary_lines (self sb)). split; [done|].
      split; [by rewrite Hsum, Hout, app_assoc|].
      rewrite Hself, Hcount. by exists lb.
    + rewrite ret_run. exists sb, (Ok tt), lb. split; [done|]. split; [done|].
      by rewrite Hcount.
  - exists sb, (Raise e), lb. split; [done|]. split; [done|].
    rewrite (Hraise e eq_refl), Hsc, Hfc. by rewrite bool_decide_eq_false_2 by lia.
Qed.

Lemma inv_bind {A B X} (g : State → X) (m : M A) (k : A → M B) :
  (∀ s, g (m s).1 = g s) → (∀ a s, g (k a s).1 = g s) →
  ∀ s, g ((m ≫= k) s).1 = g s.
Proof.
  intros Hm Hk s. rewrite bind_run. specialize (Hm s).
  destruct (m s) as [s1 [a|e]]; simpl in Hm; [|done]. by rewrite Hk.
Qed.

Lemma inv_engine_call {X} (g : Converter → list line → X) (c : call) (s : State) :
  g (self (engine_call c s).1) (stdout (world (engine_call c s).1))
  = g (self s) (stdout (world s)).
Proof. unfold engine_call. by destruct (respond _ _ _). Qed.

(** [__enter__] prints nothing and leaves the counters alone. *)
Lemma enter_quiet (s : State) :
  let s' := (__enter__ s).1 in
  stdout (world s') = stdout (world s)
  ∧ success_count (self s') = success_count (self s)
  ∧ fail_count (self s') = fail_count (self s)
  ∧ failed_files (self s') = failed_files (self s).
Proof.
  set (g := λ s : State, (stdout (world s), success_count (self s), fail_count (self s),
                          failed_files (self s))).
  assert (g (__enter__ s).1 = g s) as [= H1 H2 H3 H4]; [|done].
  revert s. unfold __enter__.
  repeat (apply inv_bind;
          [first [intros s; apply (inv_engine_call
                     (λ cv out, (out, success_count cv, fail_count cv, failed_files cv)))
                 | done]
          | intros _]).
  done.
Qed.

(** [__exit__] prints nothing and leaves the converter alone. *)
Lemma exit_quiet (s : State) :
  stdout (world (__exit__ s).1) = stdout (world s) ∧ self (__exit__ s).1 = self s.
Proof.
  set (g := λ s : State, (stdout (world s), self s)).
  assert (g (__exit__ s).1 = g s) as [= H1 H2]; [|done].
  assert (∀ c s, g (engine_call c s).1 = g s) as Hcall.
  { intros c s0. apply (inv_engine_call (λ cv out, (out, cv))). }
  revert s. unfold __exit__.
  apply inv_bind; [done | intros cv].
  apply inv_bind; [destruct (page cv); [apply Hcall | done] | intros _].
  apply inv_bind; [destruct (browser cv); [apply Hcall | done] | intros _].
  destruct (playwright cv); [apply Hcall | done].
Qed.

(** The lines of a run: plain lines, with the summary among them exactly
    when a job has been counted. *)
Lemma main_lines (args : Args) (w : World) :
  ∃ s' r ls,
    main args w = (s', r)
    ∧ stdout (world s') = stdout w ++ ls
    ∧ if bool_decide (success_count (self s') > 0 ∨ fail_count (self s') > 0)
      then ∃ before after,
             ls = before ++ summary_lines (self s') ++ after
             ∧ Forall plain_line before ∧ Forall plain_line after
      else Forall plain_line ls.
Proof.
  unfold main, main_body.
  do 3 (rewrite bind_run, print_run; cbv beta iota).
  cbn [self world]. fold (main_start args w). set (s0 := main_start args w).
  assert (stdout (world s0) = stdout w ++ [Banner; Separator; Blank]) as Hout0.
  { simpl. by rewrite <- !app_assoc. }
  assert (Forall plain_line [Banner; Separator; Blank]) as Hplain0 by (by repeat constructor).
  rewrite bind_run. unfold with_. rewrite bind_run.
  destruct (enter_quiet s0) as (E1 & E2 & E3 & _).
  destruct (__enter__ s0) as [s1 [[]|e]]; simpl in E1, E2, E3.
  2:{ exists s1, (Raise e), [Banner; Separator; Blank]. split; [done|].
      split; [rewrite E1; simpl; by rewrite <- !app_assoc|]. rewrite E2, E3. by rewrite bool_decide_eq_false_2 by (simpl; lia). }
  unfold then_exit.
  destruct (main_dispatch_lines (input_of args) (output_of args) s1)
    as (s2 & r & ls2 & Hrun & Hout & Hsum); [by rewrite E2 | by rewrite E3 |].
  rewrite Hrun. destruct (exit_quiet s2) as [X1 X2].
  assert (∀ s3 (r3 : result unit) after,
            self s3 = self s2 → stdout (world s3) = stdout (world s2) ++ after →
            Forall plain_line after →
            ∃ s' r' ls,
              (s3, r3) = (s', r')
              ∧ stdout (world s') = stdout w ++ ls
              ∧ if bool_decide (success_count (self s') > 0 ∨ fail_count (self s') > 0)
                then ∃ before after,
                       ls = before ++ summary_lines (self s') ++ after
                       ∧ Forall plain_line before ∧ Forall plain_line after
                else Forall plain_line ls) as Hend.
  { intros s3 r3 after Hself Hout3 Hafter.
    exists s3, r3, ([Banner; Separator; Blank] ++ ls2 ++ after). split; [done|].
    split; [rewrite Hout3, Hout, E1; simpl; by rewrite <- !app_assoc|].
    rewrite Hself. destruct (bool_decide _).
    - destruct Hsum as (before & -> & Hbefore).
      exists ([Banner; Separator; Blank] ++ before), after.
      split; [by rewrite <- !app_assoc|]. split; [by apply Forall_app | done].
    - apply Forall_app. split; [done|]. by apply Forall_app. }
  destruct (__exit__ s2) as [s3 [[]|e]]; simpl in X1, X2.
  - destruct r as [[]|e].
    + rewrite bind_run, print_run. cbv beta iota. rewrite print_run.
      apply (Hend _ _ [Blank; Elapsed]); [done| |by repeat constructor].
      simpl. by rewrite X1, <- !app_assoc.
    + apply (Hend _ _ []); [done | by rewrite app_nil_r | done].
  - apply (Hend _ _ []); [done | by rewrite app_nil_r | done].
Qed.


(** X18. The guards of [convert_single] and [convert_batch] never fire in
    a run of [main], which has looked at the input before it calls them:
    no run prints the line of a missing file, of a missing directory or of
    a path that is no directory. *)
Theorem guards_never_fire (args : Args) (w : World) :
  ∃ ls,
    stdout (world (main args w).1) = stdout w ++ ls
    ∧ Forall (λ l, guard_line l = false) ls.
Proof.
  destruct (main_lines args w) as (s' & r & ls & -> & Hout & H). simpl.
  exists ls. split; [done|].
  destruct (bool_decide _).
  - destruct H as (before & after & -> & H1 & H2).
    apply Forall_app. split; [by apply plain_line_no_guard|].
    apply Forall_app. split; [apply summary_lines_no_guard | by apply plain_line_no_guard].
  - by apply plain_line_no_guard.
Qed.
